(** * multi-md5: a shallow embedding of [multi-md5.py]

    The program walks a directory tree, hashes every file with MD5 on a
    thread pool and either writes a checksum manifest or verifies the
    tree against an existing manifest.

    Conventions of the embedding.
    - A Python [str] is a [string]; its characters are the code points
      below 256.  File contents are [list byte].
    - A Python exception is a value of [exn]; code that may raise returns
      a [result].
    - Generators over a finite directory tree are the finite list of the
      values they yield, in order.
    - The order in which [as_completed] hands back the futures of one
      batch is not fixed by the program: it is a parameter [sched], any
      function that permutes each batch.
    - The machine is part of the input: what [open] makes of each path
      and how large a read buffer the allocator grants.  Where the
      interpreter or the system matters, they are 64-bit CPython and
      Linux.
    - Left out: logging, the handling of [KeyboardInterrupt], argument
      parsing, and directory trees made infinite by symbolic links. *)

From Stdlib Require Import List String Ascii Bool Arith ZArith Lia.
From Stdlib Require Import Permutation.
From Stdlib Require Import Strings.Byte.
Import ListNotations.

Local Open Scope string_scope.
Local Open Scope list_scope.

(** ** Exceptions and results *)

Inductive exn : Type :=
| FileNotFoundError (path : string)
    (* open() finds nothing at the path (errno ENOENT); the hasher
       catches it *)
| OSError (path : string)
    (* any other failure of open()/read(): PermissionError,
       IsADirectoryError, NotADirectoryError, an I/O error ...; the
       ValueError of open() for a NUL character stands with them *)
| ValueError_read_length
    (* f.read(n), n below -1: read length must be non-negative or -1 *)
| OverflowError
    (* f.read(n): n is too large for a bytes object *)
| MemoryError
    (* f.read(n): the buffer of n bytes is not granted *)
| IndexError
    (* list index out of range *)
| ValueError_range_step
    (* range() arg 3 must not be zero *)
| ValueError_max_workers
    (* ThreadPoolExecutor: max_workers must be greater than 0 *)
| ValueError_commonpath
    (* os.path.commonpath: can't mix absolute and relative paths *)
| ValueError_relpath
    (* os.path.relpath: no path specified *)
| InvalidChecksum (file_path : string) (expected calculated : option string)
    (* the ValueError of verify_checksums_multithread *)
| RuntimeError (about : option string) (cause : exn).
    (* the wrapping RuntimeError of both orchestrators; [about] is the
       file_path interpolated by the verifier's message *)

Inductive result (A : Type) : Type :=
| Ok (a : A)
| Raise (e : exn).
Arguments Ok {A} a.
Arguments Raise {A} e.

Definition bind {A B} (r : result A) (k : A -> result B) : result B :=
  match r with
  | Ok a => k a
  | Raise e => Raise e
  end.

Notation "x <- r ;; k" := (bind r (fun x => k))
  (at level 61, r at next level, right associativity).

Fixpoint mapM {A B} (f : A -> result B) (l : list A) : result (list B) :=
  match l with
  | [] => Ok []
  | a :: l' => b <- f a ;; bs <- mapM f l' ;; Ok (b :: bs)
  end.

(** ** Python string primitives *)

Module Str.

Definition LF : ascii := ascii_of_nat 10.
Definition CR : ascii := ascii_of_nat 13.
Definition hash_mark : ascii := "#"%char.
Definition sep : ascii := "/"%char.

(** [str.isspace] on one character, for the code points below 256. *)
Definition isspace (c : ascii) : bool :=
  let n := nat_of_ascii c in
  (((9 <=? n) && (n <=? 13)) || ((28 <=? n) && (n <=? 32))
  || (n =? 133) || (n =? 160))%nat.

(** [s.startswith(p)] *)
Fixpoint startswith (p s : string) : bool :=
  match p, s with
  | EmptyString, _ => true
  | String _ _, EmptyString => false
  | String a p', String b s' => Ascii.eqb a b && startswith p' s'
  end.

(** [s.endswith(p)] *)
Fixpoint endswith (p s : string) : bool :=
  match s with
  | EmptyString => String.eqb p ""
  | String _ s' => String.eqb p s || endswith p s'
  end.

(** [s.split()]: the maximal runs of non-whitespace characters. *)
Fixpoint split_ws (s : string) : list string :=
  match s with
  | EmptyString => []
  | String c s' =>
      if isspace c then split_ws s'
      else match s' with
           | EmptyString => [String c ""]
           | String c' _ =>
               if isspace c' then String c "" :: split_ws s'
               else match split_ws s' with
                    | t :: ts => String c t :: ts
                    | [] => [String c ""]
                    end
           end
  end.

(** [s.split(c)] for a one-character separator: never empty. *)
Fixpoint split_on (c : ascii) (s : string) : list string :=
  match s with
  | EmptyString => [""]
  | String a s' =>
      if Ascii.eqb a c then "" :: split_on c s'
      else match split_on c s' with
           | p :: ps => String a p :: ps
           | [] => [String a ""]
           end
  end.

(** [c.join(l)] *)
Fixpoint join_with (c : string) (l : list string) : string :=
  match l with
  | [] => ""
  | [x] => x
  | x :: l' => x ++ c ++ join_with c l'
  end.

Fixpoint all_chars (p : ascii -> bool) (s : string) : bool :=
  match s with
  | EmptyString => true
  | String c s' => p c && all_chars p s'
  end.

(** Text-mode reading translates "\r\n" and "\r" to "\n". *)
Fixpoint universal_newlines (s : string) : string :=
  match s with
  | EmptyString => ""
  | String c s' =>
      if Ascii.eqb c CR then
        match s' with
        | String c' s'' =>
            if Ascii.eqb c' LF then String LF (universal_newlines s'')
            else String LF (universal_newlines s')
        | EmptyString => String LF ""
        end
      else String c (universal_newlines s')
  end.

(** Cut a text after every "\n", keeping the terminators. *)
Fixpoint keepends (s : string) : list string :=
  match s with
  | EmptyString => []
  | String c s' =>
      if Ascii.eqb c LF then String c "" :: keepends s'
      else match keepends s' with
           | l :: ls => String c l :: ls
           | [] => [String c ""]
           end
  end.

(** [f.readlines()] on a file opened in text mode. *)
Definition readlines (text : string) : list string :=
  keepends (universal_newlines text).

End Str.

(** ** Manifest codec: [read_checksum_file] *)

(** [list.remove(x)]: drop the first element equal to [x]. *)
Fixpoint list_remove (x : string) (l : list string) : list string :=
  match l with
  | [] => []
  | y :: l' => if String.eqb x y then l' else y :: list_remove x l'
  end.

(** The loop of lines 36-39.  A Python [for] over a list keeps an index
    [i] into the live list; [lines.remove(line)] shortens that list
    while the index still advances.  [None] when the fuel is used up. *)
Fixpoint strip_loop (fuel i : nat) (lines : list string)
  : option (list string) :=
  match nth_error lines i with
  | None => Some lines
  | Some line =>
      match fuel with
      | O => None
      | S fuel' =>
          if Str.startswith "#" line
          then strip_loop fuel' (S i) (list_remove line lines)
          else strip_loop fuel' (S i) lines
      end
  end.

Definition strip_comments (lines : list string) : list string :=
  match strip_loop (List.length lines) 0 lines with
  | Some l => l
  | None => lines
  end.

(** [(line.split()[0], line.split()[1])] *)
Definition parse_line (line : string) : result (string * string) :=
  match Str.split_ws line with
  | digest :: path :: _ => Ok (digest, path)
  | _ => Raise IndexError
  end.

(** The body of [read_checksum_file] after [f.readlines()]. *)
Definition parse_lines (lines : list string)
  : result (list (string * string)) :=
  mapM parse_line (strip_comments lines).

Definition read_checksum_file (text : string)
  : result (list (string * string)) :=
  parse_lines (Str.readlines text).

(** ** MD5 (the function behind [hashlib.md5], RFC 1321)

    32-bit words are [Z] values kept below [2^32] by masking. *)

Module MD5.
Local Open Scope Z_scope.

Definition mask32 : Z := 0xFFFFFFFF.
Definition add32 (x y : Z) : Z := Z.land (x + y) mask32.
Definition not32 (x : Z) : Z := Z.lxor x mask32.
Definition rotl32 (x n : Z) : Z :=
  Z.land (Z.lor (Z.shiftl x n) (Z.shiftr x (32 - n))) mask32.

Definition K : list Z :=
  [ 0xd76aa478; 0xe8c7b756; 0x242070db; 0xc1bdceee;
    0xf57c0faf; 0x4787c62a; 0xa8304613; 0xfd469501;
    0x698098d8; 0x8b44f7af; 0xffff5bb1; 0x895cd7be;
    0x6b901122; 0xfd987193; 0xa679438e; 0x49b40821;
    0xf61e2562; 0xc040b340; 0x265e5a51; 0xe9b6c7aa;
    0xd62f105d; 0x02441453; 0xd8a1e681; 0xe7d3fbc8;
    0x21e1cde6; 0xc33707d6; 0xf4d50d87; 0x455a14ed;
    0xa9e3e905; 0xfcefa3f8; 0x676f02d9; 0x8d2a4c8a;
    0xfffa3942; 0x8771f681; 0x6d9d6122; 0xfde5380c;
    0xa4beea44; 0x4bdecfa9; 0xf6bb4b60; 0xbebfbc70;
    0x289b7ec6; 0xeaa127fa; 0xd4ef3085; 0x04881d05;
    0xd9d4d039; 0xe6db99e5; 0x1fa27cf8; 0xc4ac5665;
    0xf4292244; 0x432aff97; 0xab9423a7; 0xfc93a039;
    0x655b59c3; 0x8f0ccc92; 0xffeff47d; 0x85845dd1;
    0x6fa87e4f; 0xfe2ce6e0; 0xa3014314; 0x4e0811a1;
    0xf7537e82; 0xbd3af235; 0x2ad7d2bb; 0xeb86d391 ].

Definition shifts : list Z :=
  [ 7; 12; 17; 22; 7; 12; 17; 22; 7; 12; 17; 22; 7; 12; 17; 22;
    5;  9; 14; 20; 5;  9; 14; 20; 5;  9; 14; 20; 5;  9; 14; 20;
    4; 11; 16; 23; 4; 11; 16; 23; 4; 11; 16; 23; 4; 11; 16; 23;
    6; 10; 15; 21; 6; 10; 15; 21; 6; 10; 15; 21; 6; 10; 15; 21 ].

Record regs : Type := Regs { rA : Z; rB : Z; rC : Z; rD : Z }.

Definition init : regs :=
  Regs 0x67452301 0xefcdab89 0x98badcfe 0x10325476.

(** One of the 64 operations of a block; [M] holds its 16 words. *)
Definition op (M : list Z) (r : regs) (i : nat) : regs :=
  let '(Regs a b c d) := r in
  let zi := Z.of_nat i in
  let '(f, g) :=
    if zi <? 16 then (Z.lor (Z.land b c) (Z.land (not32 b) d), zi)
    else if zi <? 32
         then (Z.lor (Z.land d b) (Z.land (not32 d) c), (5 * zi + 1) mod 16)
    else if zi <? 48 then (Z.lxor b (Z.lxor c d), (3 * zi + 5) mod 16)
    else (Z.lxor c (Z.lor b (not32 d)), (7 * zi) mod 16) in
  let f' := add32 (add32 (add32 f a) (nth i K 0)) (nth (Z.to_nat g) M 0) in
  Regs d (add32 b (rotl32 f' (nth i shifts 0))) b c.

(** Little-endian 32-bit words of a block of bytes. *)
Fixpoint words (bs : list Z) : list Z :=
  match bs with
  | b0 :: b1 :: b2 :: b3 :: rest =>
      (b0 + Z.shiftl b1 8 + Z.shiftl b2 16 + Z.shiftl b3 24) :: words rest
  | _ => []
  end.

Definition block (r : regs) (bs : list Z) : regs :=
  let '(Regs a b c d) := fold_left (op (words bs)) (seq 0 64) r in
  Regs (add32 (rA r) a) (add32 (rB r) b) (add32 (rC r) c) (add32 (rD r) d).

Fixpoint blocks (n : nat) (r : regs) (bs : list Z) : regs :=
  match n with
  | O => r
  | S n' => blocks n' (block r (firstn 64 bs)) (skipn 64 bs)
  end.

Definition le_bytes (width : nat) (x : Z) : list Z :=
  map (fun k => Z.land (Z.shiftr x (8 * Z.of_nat k)) 0xFF) (seq 0 width).

Definition pad (msg : list Z) : list Z :=
  let len := Z.of_nat (List.length msg) in
  let zeros := Z.to_nat ((55 - len) mod 64) in
  msg ++ [0x80] ++ repeat 0 zeros ++ le_bytes 8 (Z.land (8 * len) 0xFFFFFFFFFFFFFFFF).

Definition digest (msg : list byte) : list Z :=
  let padded := pad (map (fun b => Z.of_N (Byte.to_N b)) msg) in
  let '(Regs a b c d) := blocks (List.length padded / 64) init padded in
  le_bytes 4 a ++ le_bytes 4 b ++ le_bytes 4 c ++ le_bytes 4 d.

Definition hex_digit (n : Z) : ascii :=
  match Z.to_nat (Z.land n 0xF) with
  | 0%nat => "0" | 1%nat => "1" | 2%nat => "2" | 3%nat => "3"
  | 4%nat => "4" | 5%nat => "5" | 6%nat => "6" | 7%nat => "7"
  | 8%nat => "8" | 9%nat => "9" | 10%nat => "a" | 11%nat => "b"
  | 12%nat => "c" | 13%nat => "d" | 14%nat => "e" | _ => "f"
  end%char.

Fixpoint hex (bs : list Z) : string :=
  match bs with
  | [] => ""
  | b :: bs' => String (hex_digit (Z.shiftr b 4)) (String (hex_digit b) (hex bs'))
  end.

Definition hexdigest (msg : list byte) : string := hex (digest msg).

End MD5.

Definition bytes_of (s : string) : list byte := list_byte_of_string s.

(** ** Hasher: [calculate_file_checksum] *)

(** What [open(path, 'rb')] makes of a path when a worker gets to it.
    - [None]: it raises [FileNotFoundError] (errno ENOENT): a name on
      the way or at the end is missing from its directory, the path
      ends in or runs through a dangling symbolic link, or it is empty.
    - [Some Unreadable]: it raises something else, as a rule another
      [OSError]: PermissionError, IsADirectoryError, NotADirectoryError
      for a path that runs through a regular file, a name too long, an
      I/O error; or the ValueError for a path that holds a NUL
      character.
    - [Some (Regular content)]: it opens a file that holds [content]. *)
Inductive node : Type :=
| Regular (content : list byte)
| Unreadable.

(** The machine the workers run on: what [open] makes of every path,
    and the size up to which its allocator grants the buffer of a
    read. *)
Record filesystem : Type := Machine {
  opening :> string -> option node;
  buffer_max : N
}.

Definition triple : Type := (string * option string * option string)%type.

(** The largest [bytes] object of 64-bit CPython: [PY_SSIZE_T_MAX] less
    the 33 bytes of its header. *)
Definition bytes_max : Z := 2 ^ 63 - 34.

(** [f.read(n)] on a file opened with ['rb']: the bytes read and the
    rest of the stream.  A size below -1 is refused; -1 reads all that
    is left; 0 gives [b""]; any other size has its buffer allocated
    before the file is consulted, which fails for a size beyond
    [bytes_max] and for one the allocator does not grant. *)
Definition file_read (limit : N) (n : Z) (f : list byte)
  : result (list byte * list byte) :=
  if (n <? -1)%Z then Raise ValueError_read_length
  else if (n =? -1)%Z then
    if (Z.of_N limit <? Z.of_nat (List.length f))%Z then Raise MemoryError
    else Ok (f, [])
  else if (n =? 0)%Z then Ok ([], f)
  else if (bytes_max <? n)%Z then Raise OverflowError
  else if (Z.of_N limit <? n)%Z then Raise MemoryError
  else Ok (firstn (Z.to_nat n) f, skipn (Z.to_nat n) f).

(** [for chunk in iter(lambda: f.read(read_size), b""): hasher.update(chunk)].
    The state of a [hashlib] hasher is the concatenation of the chunks
    fed to it.  [None] when the fuel is used up. *)
Fixpoint read_loop (fuel : nat) (limit : N) (read_size : Z)
    (f hasher : list byte)
  : option (result (list byte)) :=
  match file_read limit read_size f with
  | Raise e => Some (Raise e)
  | Ok ([], _) => Some (Ok hasher)
  | Ok (chunk, f') =>
      match fuel with
      | O => None
      | S fuel' => read_loop fuel' limit read_size f' (hasher ++ chunk)
      end
  end.

(** Lines 23-25 on an opened file: the digest, or the exception of a
    read.  The fuel is enough for the loop to end ([read_loop_total]
    below). *)
Definition hash_stream (limit : N) (read_size : Z) (content : list byte)
  : result string :=
  match read_loop (List.length content) limit read_size content [] with
  | Some (Ok hasher) => Ok (MD5.hexdigest hasher)
  | Some (Raise e) => Raise e
  | None => Ok (MD5.hexdigest [])
  end.

(** Only [FileNotFoundError] is caught (line 26). *)
Definition calculate_file_checksum (fs : filesystem) (file_path : string)
    (read_size : Z) (pass_through : option string) : result triple :=
  match fs file_path with
  | Some (Regular content) =>
      digest <- hash_stream (buffer_max fs) read_size content ;;
      Ok (file_path, Some digest, pass_through)
  | Some Unreadable => Raise (OSError file_path)
  | None => Ok (file_path, None, pass_through)
  end.

(** ** [os.path] for POSIX *)

Module Path.

(** [os.path.join(a, b)] *)
Definition join (a b : string) : string :=
  if Str.startswith "/" b then b
  else if String.eqb a "" || Str.endswith "/" a then (a ++ b)%string
  else (a ++ "/" ++ b)%string.

(** [os.path.join(a, *ps)] *)
Definition join_all (a : string) (ps : list string) : string :=
  fold_left join ps a.

(** One turn of the loop of [normpath]; the stack [new_comps] is kept
    with its top first. *)
Definition norm_step (initial_slashes : nat) (new_comps : list string)
    (comp : string) : list string :=
  if String.eqb comp "" || String.eqb comp "." then new_comps
  else if negb (String.eqb comp "..")
          || (Nat.eqb initial_slashes 0 && Nat.eqb (List.length new_comps) 0)
          || match new_comps with
             | top :: _ => String.eqb top ".."
             | [] => false
             end
  then comp :: new_comps
  else tl new_comps.

Definition initial_slashes (path : string) : nat :=
  if Str.startswith "/" path then
    if Str.startswith "//" path && negb (Str.startswith "///" path)
    then 2 else 1
  else 0.

Fixpoint slashes (n : nat) : string :=
  match n with
  | O => ""
  | S n' => String Str.sep (slashes n')
  end.

(** [os.path.normpath(path)] *)
Definition normpath (path : string) : string :=
  if String.eqb path "" then "."
  else
    let n := initial_slashes path in
    let comps := rev (fold_left (norm_step n) (Str.split_on Str.sep path) []) in
    let p := (slashes n ++ Str.join_with "/" comps)%string in
    if String.eqb p "" then "." else p.

(** [os.path.abspath(path)] in a process whose working directory is [cwd] *)
Definition abspath (cwd path : string) : string :=
  normpath (if Str.startswith "/" path then path else join cwd path).

Fixpoint common_prefix (l1 l2 : list string) : list string :=
  match l1, l2 with
  | x :: l1', y :: l2' =>
      if String.eqb x y then x :: common_prefix l1' l2' else []
  | _, _ => []
  end.

(** [os.path.commonpath([p1, p2])] *)
Definition commonpath (p1 p2 : string) : result string :=
  let isabs1 := Str.startswith "/" p1 in
  let isabs2 := Str.startswith "/" p2 in
  if negb (Bool.eqb isabs1 isabs2) then Raise ValueError_commonpath
  else
    let real c := negb (String.eqb c "") && negb (String.eqb c ".") in
    let s1 := filter real (Str.split_on Str.sep p1) in
    let s2 := filter real (Str.split_on Str.sep p2) in
    Ok ((if isabs1 then "/" else "")
          ++ Str.join_with "/" (common_prefix s1 s2))%string.

(** [os.path.relpath(path, start)] *)
Definition relpath (cwd path start : string) : result string :=
  if String.eqb path "" then Raise ValueError_relpath
  else
    let nonempty c := negb (String.eqb c "") in
    let start_list := filter nonempty (Str.split_on Str.sep (abspath cwd start)) in
    let path_list := filter nonempty (Str.split_on Str.sep (abspath cwd path)) in
    let i := List.length (common_prefix start_list path_list) in
    let rel_list :=
      repeat ".." (List.length start_list - i) ++ skipn i path_list in
    match rel_list with
    | [] => Ok "."
    | c :: cs => Ok (join_all c cs)
    end.

End Path.

(** ** Tree enumerator: [os.walk] and [batch_os_walk] *)

(** A directory as [os.walk] lists it: the sub-directories by name
    (symbolic links to directories among them, [followlinks=True]) and
    the names of everything else.  The tree is a finite snapshot. *)
#[local] Unset Elimination Schemes.
Inductive tree : Type :=
| Dir (subdirs : list (string * tree)) (files : list string).
#[local] Set Elimination Schemes.

(** [os.walk(top, followlinks=True)], top-down.  Between the moment a
    directory is yielded and the descent into it the caller may edit
    [dirs] in place; the one edit of this program is a filter, [keep]. *)
Fixpoint os_walk (keep : string -> bool) (top : string) (t : tree)
  : list (string * list string * list string) :=
  match t with
  | Dir subdirs files =>
      (top, map fst (filter (fun dt => keep (fst dt)) subdirs), files)
      :: (fix descend (ds : list (string * tree)) :=
            match ds with
            | [] => []
            | (d, sub) :: ds' =>
                (if keep d then os_walk keep (Path.join top d) sub else [])
                ++ descend ds'
            end) subdirs
  end.

Definition is_hidden (path : string) : bool :=
  existsb (Str.startswith ".") (Str.split_on Str.sep path).

(** The generator's local [file_batch] and the batches yielded so far. *)
Record walker : Type := Walker {
  file_batch : list string;
  yielded : list (list string)
}.

(** Lines 63-71, for one [file] of the directory [root]. *)
Definition visit_file (batch_size : Z) (skip_hidden : bool) (root : string)
    (w : walker) (file : string) : walker :=
  let file_path := Path.join root file in
  if negb skip_hidden || negb (is_hidden file_path) then
    let fb := file_batch w ++ [file_path] in
    if (Z.of_nat (List.length fb) =? batch_size)%Z
    then Walker [] (yielded w ++ [fb])
    else Walker fb (yielded w)
  else w.

Definition visit_dir (batch_size : Z) (skip_hidden : bool) (w : walker)
    (entry : string * list string * list string) : walker :=
  let '(root, _, files) := entry in
  fold_left (visit_file batch_size skip_hidden root) files w.

(** [dirs[:] = [d for d in dirs if not d.startswith('.')]], under
    [if skip_hidden]. *)
Definition keep_dir (skip_hidden : bool) (d : string) : bool :=
  negb (skip_hidden && Str.startswith "." d).

Definition batch_os_walk (directory : string) (batch_size : Z)
    (skip_hidden : bool) (t : tree) : list (list string) :=
  let w := fold_left (visit_dir batch_size skip_hidden)
             (os_walk (keep_dir skip_hidden) directory t) (Walker [] []) in
  match file_batch w with
  | [] => yielded w
  | _ :: _ => yielded w ++ [file_batch w]
  end.

(** ** Worker pool *)

(** [as_completed] for the batch number [i] of a run. *)
Definition scheduler : Type := nat -> forall A : Type, list A -> list A.

Definition fair (sched : scheduler) : Prop :=
  forall i A (l : list A), Permutation (sched i A l) l.

Definition fifo : scheduler := fun _ _ l => l.
Definition lifo : scheduler := fun _ _ l => rev l.

(** [ThreadPoolExecutor(max_workers=...)] *)
Definition executor (max_workers : Z) : result unit :=
  if (max_workers <=? 0)%Z then Raise ValueError_max_workers else Ok tt.

(** [range(0, stop, step)] for a positive [step] *)
Definition range0 (stop step : nat) : list nat :=
  map (fun k => k * step) (seq 0 ((stop + step - 1) / step)).

(** [iterable[a:b]] *)
Definition slice {A} (l : list A) (a b : nat) : list A :=
  firstn (b - a) (skipn a l).

(** [batch(iterable, n)], the chunks it yields. *)
Definition batch {A} (iterable : list A) (n : Z) : result (list (list A)) :=
  let l := List.length iterable in
  if (n =? 0)%Z then Raise ValueError_range_step
  else if (n <? 0)%Z then Ok []
  else Ok (map (fun ndx => slice iterable ndx (Nat.min (ndx + Z.to_nat n) l))
               (range0 l (Z.to_nat n))).

(** ** Generation orchestrator: [calculate_checksums_multithread] *)

(** What [print(..., file=outfile, flush=True)] has written so far, one
    element per call, and the exception that ended the run, if any. *)
Record gen_state : Type := GenState {
  printed : list string;
  gen_raised : option exn
}.

Definition is_checksum_name (filename : string) : bool :=
  Str.endswith ".md5" filename || Str.endswith ".md5sum" filename.

(** [f"{x}"] for a digest or [None] *)
Definition py_str (x : option string) : string :=
  match x with
  | Some s => s
  | None => "None"
  end.

(** [f"{calculated_checksum}  {dotslash}{shortened_path}"] *)
Definition format_line (calculated : option string)
    (dotslash shortened_path : string) : string :=
  (py_str calculated ++ "  " ++ dotslash ++ shortened_path)%string.

Section Generation.
Variable fs : filesystem.
Variable cwd : string.
Variable directory_path : string.
Variable read_size : Z.
Variable dotslash : string.

(** Lines 96-99 for one completed future; any exception in them is
    re-raised as a [RuntimeError] by line 102. *)
Definition report (filename : string) : result string :=
  match
    (r <- calculate_file_checksum fs filename read_size None ;;
     let '(file_path, calculated_checksum, _) := r in
     common_path <- Path.commonpath file_path directory_path ;;
     shortened_path <- Path.relpath cwd file_path common_path ;;
     Ok (format_line calculated_checksum dotslash shortened_path))
  with
  | Ok line => Ok line
  | Raise e => Raise (RuntimeError None e)
  end.

(** [for future in as_completed(futures)] *)
Fixpoint collect (completed : list string) (out : list string)
  : gen_state :=
  match completed with
  | [] => GenState out None
  | filename :: rest =>
      match report filename with
      | Ok line => collect rest (out ++ [line])
      | Raise e => GenState out (Some e)
      end
  end.

(** [for filenames in batch_os_walk(...)], from batch number [i] on *)
Fixpoint gen_batches (sched : scheduler) (i : nat)
    (batches : list (list string)) (out : list string) : gen_state :=
  match batches with
  | [] => GenState out None
  | filenames :: rest =>
      let futures := filter (fun f => negb (is_checksum_name f)) filenames in
      let st := collect (sched i _ futures) out in
      match gen_raised st with
      | Some _ => st
      | None => gen_batches sched (S i) rest (printed st)
      end
  end.

Definition calculate_checksums_multithread (sched : scheduler)
    (max_workers : Z) (skip_hidden : bool) (t : tree) : gen_state :=
  let batch_size := (max_workers * 20)%Z in
  match executor max_workers with
  | Raise e => GenState [] (Some e)
  | Ok _ =>
      gen_batches sched 0
        (batch_os_walk directory_path batch_size skip_hidden t) []
  end.

End Generation.

(** The text of the output file: [print] ends every line with "\n". *)
Fixpoint file_text (lines : list string) : string :=
  match lines with
  | [] => ""
  | l :: ls => (l ++ String Str.LF (file_text ls))%string
  end.

(** ** Verification orchestrator: [verify_checksums_multithread] *)

(** A submitted task: the value kept for it in [future_to_file] and the
    arguments given to [calculate_file_checksum].  Every [submit] makes
    a new future, so the dictionary has one key per entry of the chunk. *)
Record future : Type := Future {
  fut_file : string;
  fut_path : string;
  fut_expected : option string
}.

(** The local [results], with two ghost fields: every value [results]
    has had, oldest first, and the paths handed to the executor. *)
Record vstate : Type := VState {
  results : list triple;
  ledgers : list (list triple);
  submitted : list string
}.

Definition option_eqb (a b : option string) : bool :=
  match a, b with
  | Some x, Some y => String.eqb x y
  | None, None => true
  | _, _ => false
  end.

Section Verification.
Variable fs : filesystem.
Variable cwd : string.
Variable directory_path : string.
Variable read_size : Z.
Variable keep_going : bool.

Definition submit (entry : string * string) : future :=
  let '(expected_checksum, file) := entry in
  Future file (Path.abspath cwd (Path.join directory_path file))
         (Some expected_checksum).

Definition append_result (r : triple) (st : vstate) : vstate :=
  VState (results st ++ [r])
         (ledgers st ++ [results st ++ [r]])
         (submitted st).

(** Lines 127-138 for one completed future. *)
Definition consume (st : vstate) (f : future) : vstate * option exn :=
  match calculate_file_checksum fs (fut_path f) read_size (fut_expected f) with
  | Raise e => (st, Some (RuntimeError (Some (fut_file f)) e))
  | Ok (file_path, calculated_checksum, expected_checksum) =>
      let st' :=
        append_result (file_path, calculated_checksum, expected_checksum) st in
      if option_eqb expected_checksum calculated_checksum then (st', None)
      else if keep_going then (st', None)
      else (st', Some (RuntimeError (Some file_path)
                         (InvalidChecksum file_path expected_checksum
                                          calculated_checksum)))
  end.

(** [for future in as_completed(future_to_file)] *)
Fixpoint consume_all (completed : list future) (st : vstate)
  : vstate * option exn :=
  match completed with
  | [] => (st, None)
  | f :: rest =>
      match consume st f with
      | (st', Some e) => (st', Some e)
      | (st', None) => consume_all rest st'
      end
  end.

(** [for chunk in batch(checksums, batch_size)], from chunk number [i] on *)
Fixpoint verify_chunks (sched : scheduler) (i : nat)
    (chunks : list (list (string * string))) (st : vstate)
  : vstate * option exn :=
  match chunks with
  | [] => (st, None)
  | chunk :: rest =>
      let future_to_file := map submit chunk in
      let st1 := VState (results st) (ledgers st)
                   (submitted st ++ map fut_path future_to_file) in
      match consume_all (sched i _ future_to_file) st1 with
      | (st', Some e) => (st', Some e)
      | (st', None) => verify_chunks sched (S i) rest st'
      end
  end.

(** The run of the function: its last state and what it raised. *)
Definition verify_run (sched : scheduler) (max_workers : Z)
    (checksums : list (string * string)) : vstate * option exn :=
  let st0 := VState [] [[]] [] in
  let batch_size := (max_workers * 4)%Z in
  match executor max_workers with
  | Raise e => (st0, Some e)
  | Ok _ =>
      match batch checksums batch_size with
      | Raise e => (st0, Some e)
      | Ok chunks => verify_chunks sched 0 chunks st0
      end
  end.

(** What the caller gets: [return results], or the exception. *)
Definition verify_checksums_multithread (sched : scheduler)
    (max_workers : Z) (checksums : list (string * string))
  : result (list triple) :=
  match verify_run sched max_workers checksums with
  | (st, None) => Ok (results st)
  | (_, Some e) => Raise e
  end.

(** The [--verify] branch of [main], from the text of the manifest to
    [there_was_an_error]; with it, the paths given to the worker pool. *)
Definition main_verify (sched : scheduler) (max_workers : Z)
    (manifest_text : string) : result bool * list string :=
  match read_checksum_file manifest_text with
  | Raise e => (Raise e, [])
  | Ok checksums =>
      match verify_run sched max_workers checksums with
      | (st, Some e) => (Raise e, submitted st)
      | (st, None) =>
          (Ok (existsb (fun r : triple =>
                          let '(_, calculated_checksum, expected_checksum) := r in
                          negb (option_eqb calculated_checksum expected_checksum))
                       (results st)),
           submitted st)
      end
  end.

End Verification.

(** ** Worked example *)

Module Example.

Definition root : string := "/data".

(** /data holding .hidden/file.txt and visible.txt *)
Definition t : tree :=
  Dir [(".hidden", Dir [] ["file.txt"])] ["visible.txt"].

Definition fs : filesystem :=
  Machine
    (fun p =>
       if String.eqb p "/data/visible.txt" then Some (Regular (bytes_of "abc"))
       else if String.eqb p "/data/.hidden/file.txt"
            then Some (Regular (bytes_of "a"))
       else None)
    65536.

End Example.

(** ** Vocabulary of the statements *)

(** The comment lines of section 6 of the specification: the first
    character that is not whitespace is [#].  (The program itself asks
    [line.startswith("#")].) *)
Fixpoint spec_comment_line (line : string) : bool :=
  match line with
  | EmptyString => false
  | String c rest =>
      if Str.isspace c then spec_comment_line rest
      else Ascii.eqb c Str.hash_mark
  end.

(** No line that starts with [#] directly follows another one. *)
Fixpoint comments_apart (lines : list string) : bool :=
  match lines with
  | a :: (b :: _) as rest =>
      negb (Str.startswith "#" a && Str.startswith "#" b)
      && comments_apart rest
  | _ => true
  end.

(** The file paths [batch_os_walk] is to deliver, in the order of the
    traversal: those of the directories walked, less the hidden ones when
    [skip_hidden] is set. *)
Definition discovered (directory : string) (skip_hidden : bool) (t : tree)
  : list string :=
  flat_map
    (fun entry : string * list string * list string =>
       let '(root, _, files) := entry in
       filter (fun p => negb skip_hidden || negb (is_hidden p))
              (map (Path.join root) files))
    (os_walk (keep_dir skip_hidden) directory t).

(** The tree without its hidden directories, at every depth. *)
Fixpoint prune (t : tree) : tree :=
  match t with
  | Dir subdirs files =>
      Dir ((fix go (ds : list (string * tree)) :=
              match ds with
              | [] => []
              | (d, sub) :: ds' =>
                  if Str.startswith "." d then go ds'
                  else (d, prune sub) :: go ds'
              end) subdirs)
          files
  end.

(** The names a directory listing can hold: not empty, not [.] or [..],
    and without a slash. *)
Definition legal_name (n : string) : bool :=
  negb (String.eqb n "") && negb (String.eqb n ".") && negb (String.eqb n "..")
  && Str.all_chars (fun c => negb (Ascii.eqb c Str.sep)) n.

Fixpoint legal_tree (t : tree) : bool :=
  match t with
  | Dir subdirs files =>
      forallb legal_name files
      && (fix go (ds : list (string * tree)) :=
            match ds with
            | [] => true
            | (d, sub) :: ds' => legal_name d && legal_tree sub && go ds'
            end) subdirs
  end.

(** The invariant of the generator, after the paths [seen] have passed
    the filter of line 65. *)
Record walker_inv (batch_size : Z) (w : walker) (seen : list string) : Prop := {
  inv_full : Forall (fun b => Z.of_nat (List.length b) = batch_size) (yielded w);
  inv_nonempty : Forall (fun b => b <> []) (yielded w);
  inv_seen : List.concat (yielded w) ++ file_batch w = seen;
  inv_room : (0 < batch_size)%Z ->
             (Z.of_nat (List.length (file_batch w)) < batch_size)%Z
}.

(** A triple of the ledger whose computed digest is the expected one. *)
Definition matches (r : triple) : bool :=
  let '(_, calculated_checksum, expected_checksum) := r in
  option_eqb expected_checksum calculated_checksum.

(** The error that ends a fail-fast run at the mismatching triple [r]. *)
Definition mismatch_error (r : triple) : exn :=
  let '(file_path, calculated_checksum, expected_checksum) := r in
  RuntimeError (Some file_path)
    (InvalidChecksum file_path expected_checksum calculated_checksum).

(** The task of the future [f] completes and hands back [r]. *)
Definition returns (fs : filesystem) (read_size : Z) (f : future) (r : triple)
  : Prop :=
  calculate_file_checksum fs (fut_path f) read_size (fut_expected f) = Ok r.

(** The values [results] takes while [rs] is appended to [base], one
    triple at a time. *)
Fixpoint grow (base rs : list triple) : list (list triple) :=
  match rs with
  | [] => []
  | r :: rs' => (base ++ [r]) :: grow (base ++ [r]) rs'
  end.

(** How the consumption of a batch ends, [rs] being the triples it
    appended and [todo] the futures it left: every future consumed, a
    task that raised, or a mismatch under fail-fast. *)
Definition batch_end (fs : filesystem) (read_size : Z) (keep_going : bool)
    (rs : list triple) (todo : list future) (oe : option exn) : Prop :=
  (oe = None /\ todo = []
   /\ (keep_going = false -> forallb matches rs = true))
  \/ (exists f e rest,
         todo = f :: rest
         /\ calculate_file_checksum fs (fut_path f) read_size (fut_expected f)
            = Raise e
         /\ oe = Some (RuntimeError (Some (fut_file f)) e)
         /\ (keep_going = false -> forallb matches rs = true))
  \/ (keep_going = false
      /\ exists earlier r,
           rs = earlier ++ [r]
           /\ forallb matches earlier = true
           /\ matches r = false
           /\ oe = Some (mismatch_error r)).

(** The absolute, normalized path of the components [cs]. *)
Definition render (cs : list string) : string :=
  ("/" ++ Str.join_with "/" cs)%string.

(** A token of [str.split()]: not empty and free of whitespace. *)
Definition token (s : string) : bool :=
  negb (String.eqb s "") && Str.all_chars (fun c => negb (Str.isspace c)) s.

(** Names that are legal and hold no whitespace. *)
Definition plain_name (n : string) : bool :=
  legal_name n && Str.all_chars (fun c => negb (Str.isspace c)) n.

Fixpoint plain_tree (t : tree) : bool :=
  match t with
  | Dir subdirs files =>
      forallb plain_name files
      && (fix go (ds : list (string * tree)) :=
            match ds with
            | [] => true
            | (d, sub) :: ds' => plain_name d && plain_tree sub && go ds'
            end) subdirs
  end.

(** The characters of a hexadecimal digest. *)
Definition is_hex (c : ascii) : bool :=
  existsb (Ascii.eqb c)
    (list_ascii_of_string "0123456789abcdef").

(** Neither a line feed nor a carriage return. *)
Definition inline_char (c : ascii) : bool :=
  negb (Ascii.eqb c Str.LF) && negb (Ascii.eqb c Str.CR).

(** The line of the manifest entry [e], as [format_line] builds it. *)
Definition entry_line (e : string * string) : string :=
  (fst e ++ "  " ++ snd e)%string.

(** The entry [e] is fit to stand for the file [p] in a manifest: both
    its fields are tokens, its line is no comment, the verifier resolves
    it to [p], and hashing [p] gives back the digest it records. *)
Definition sound_entry (fs : filesystem) (cwd directory : string)
    (read_size : Z) (p : string) (e : string * string) : Prop :=
  token (fst e) = true
  /\ token (snd e) = true
  /\ Str.startswith "#" (fst e) = false
  /\ fut_path (submit cwd directory e) = p
  /\ returns fs read_size (submit cwd directory e)
        (p, Some (fst e), Some (fst e)).

(** The generation branch of [main] (lines 213-231), from the parsed
    options to [num_lines]: the prefix and the hidden-entry flag are set
    from the two switches, the manifest is written, and its lines are
    counted by reading it back.  With the count, the text of the file
    as the run leaves it; an exception of the orchestrator passes
    through. *)
Definition main_generate (fs : filesystem) (cwd directory : string)
    (read_size : Z) (sched : scheduler) (workers : Z)
    (include_hidden nodotslash : bool) (t : tree) : result nat * string :=
  let dotslash := if nodotslash then "" else "./" in
  let skip_hidden := negb include_hidden in
  let g := calculate_checksums_multithread fs cwd directory read_size
             dotslash sched workers skip_hidden t in
  let text := file_text (printed g) in
  match gen_raised g with
  | Some e => (Raise e, text)
  | None => (Ok (List.length (Str.readlines text)), text)
  end.

(** Whether the manifest entry [entry] stands for a file that can be
    read and whose digest is the recorded one. *)
Definition entry_ok (fs : filesystem) (cwd directory : string)
    (read_size : Z) (entry : string * string) : bool :=
  match fs (fut_path (submit cwd directory entry)) with
  | Some (Regular content) =>
      match hash_stream (buffer_max fs) read_size content with
      | Ok digest => String.eqb (fst entry) digest
      | Raise _ => false
      end
  | _ => false
  end.

(** [os.path.split(p)[1]]: what follows the last slash of [p]. *)
Definition split_tail (p : string) : string :=
  last (Str.split_on Str.sep p) "".

(** The name [main] gives the manifest when no [--output-file] is
    passed (line 223). *)
Definition default_outfile_name (cwd directory : string) : string :=
  (split_tail (Path.abspath cwd directory) ++ ".md5")%string.

(** A positive read size that the reader accepts and whose buffer the
    machine grants. *)
Definition granted (fs : filesystem) (read_size : Z) : Prop :=
  (0 < read_size)%Z /\ (read_size <= bytes_max)%Z
  /\ (read_size <= Z.of_N (buffer_max fs))%Z.

(** *** Path resolution

    How Linux resolves the path given to [open]: the way the outcome of
    [open] arises from what is on the disk. *)

(** What a directory entry leads to: a regular file (or a symbolic link
    to one), which the process may read or not; a directory, which the
    process may search; or nothing, for a symbolic link whose target is
    missing. *)
#[local] Unset Elimination Schemes.
#[local] Set Elimination Schemes.











(** *** Hidden entries, as the specification describes them *)

(** The files of a tree that lie under no hidden directory and are not
    hidden themselves, each as its components below the root, in the
    order of the traversal. *)
Fixpoint visible_files (t : tree) : list (list string) :=
  match t with
  | Dir subdirs files =>
      map (fun f => [f]) (filter (fun f => negb (Str.startswith "." f)) files)
      ++ (fix go (ds : list (string * tree)) :=
            match ds with
            | [] => []
            | (d, sub) :: ds' =>
                (if Str.startswith "." d then []
                 else map (cons d) (visible_files sub))
                ++ go ds'
            end) subdirs
  end.

(** Closes [granted fs n] for a concrete machine and size. *)
Ltac solve_granted :=
  unfold granted; vm_compute; repeat split; try reflexivity; discriminate.

(** * Properties *)

#[local] Arguments Ascii.eqb : simpl never.
#[local] Arguments String.eqb : simpl never.

(** ** Strings *)

Lemma string_app_assoc (a b c : string) :
  ((a ++ b) ++ c = a ++ (b ++ c))%string.
Proof. induction a as [|x a IH]; simpl; [reflexivity | now rewrite IH]. Qed.

(** ** Manifest codec *)

Lemma list_remove_length x l :
  List.length (list_remove x l) <= List.length l.
Proof.
  induction l as [|y l IH]; simpl; [lia |].
  destruct (String.eqb x y); simpl; lia.
Qed.

Lemma strip_loop_total fuel : forall i lines,
  List.length lines <= fuel + i ->
  exists l, strip_loop fuel i lines = Some l.
Proof.
  induction fuel as [|fuel IH]; intros i lines Hlen; cbn [strip_loop].
  - destruct (nth_error lines i) eqn:E; [| eauto].
    assert (nth_error lines i <> None) as H by congruence.
    apply nth_error_Some in H. lia.
  - destruct (nth_error lines i) eqn:E; [| eauto].
    destruct (Str.startswith "#" s).
    + apply IH. pose proof (list_remove_length s lines). lia.
    + apply IH. lia.
Qed.

Lemma list_remove_skip x kept rest :
  Forall (fun l => Str.startswith "#" l = false) kept ->
  Str.startswith "#" x = true ->
  list_remove x (kept ++ x :: rest) = kept ++ rest.
Proof.
  intros Hk Hx. induction Hk as [|y kept Hy Hk IH]; simpl.
  - now rewrite String.eqb_refl.
  - destruct (String.eqb x y) eqn:E.
    + apply String.eqb_eq in E. congruence.
    + now rewrite IH.
Qed.

Lemma nth_error_mid {A} (kept : list A) a rest :
  nth_error (kept ++ a :: rest) (List.length kept) = Some a.
Proof. induction kept; simpl; auto. Qed.

Lemma nth_error_end {A} (kept : list A) :
  nth_error kept (List.length kept) = None.
Proof. induction kept; simpl; auto. Qed.

Lemma comments_apart_tail a rest :
  comments_apart (a :: rest) = true -> comments_apart rest = true.
Proof.
  destruct rest as [|b rest]; [reflexivity |].
  cbn [comments_apart]. intros H. now apply andb_prop in H.
Qed.

Lemma comments_apart_next a b rest :
  comments_apart (a :: b :: rest) = true ->
  Str.startswith "#" a = true -> Str.startswith "#" b = false.
Proof.
  cbn [comments_apart]. intros H Ha. apply andb_prop in H as [H _].
  rewrite Ha in H. now destruct (Str.startswith "#" b).
Qed.

Lemma snoc_cons {A} (kept : list A) a rest :
  kept ++ a :: rest = (kept ++ [a]) ++ rest.
Proof. now rewrite <- app_assoc. Qed.

Lemma strip_loop_apart fuel : forall kept rest,
  Forall (fun l => Str.startswith "#" l = false) kept ->
  comments_apart rest = true ->
  List.length rest <= fuel ->
  strip_loop fuel (List.length kept) (kept ++ rest)
  = Some (kept ++ filter (fun l => negb (Str.startswith "#" l)) rest).
Proof.
  induction fuel as [|fuel IH]; intros kept rest Hk Hap Hlen.
  - destruct rest; [| simpl in Hlen; lia].
    cbn [strip_loop filter]. now rewrite app_nil_r, nth_error_end.
  - destruct rest as [|a rest].
    { cbn [strip_loop filter]. now rewrite app_nil_r, nth_error_end. }
    cbn [strip_loop]. rewrite nth_error_mid.
    assert (Hgrow : forall x, S (List.length kept) = List.length (kept ++ [x]))
      by (intros x; rewrite length_app; simpl; lia).
    assert (Hsnoc : forall x, Str.startswith "#" x = false ->
              Forall (fun l => Str.startswith "#" l = false) (kept ++ [x]))
      by (intros x Hx; apply Forall_app; split; [assumption | now constructor]).
    destruct (Str.startswith "#" a) eqn:Ea; cbn [filter]; rewrite Ea; cbn [negb].
    + rewrite list_remove_skip by assumption.
      destruct rest as [|b rest].
      { rewrite app_nil_r.
        assert (nth_error kept (S (List.length kept)) = None) as E
          by (apply nth_error_None; lia).
        destruct fuel; cbn [strip_loop filter]; rewrite E;
          now rewrite app_nil_r. }
      pose proof (comments_apart_next _ _ _ Hap Ea) as Eb.
      cbn [filter]. rewrite Eb. cbn [negb].
      rewrite (Hgrow b), (snoc_cons kept b rest), (snoc_cons kept b (filter _ rest)).
      apply IH.
      * now apply Hsnoc.
      * apply comments_apart_tail in Hap. now apply comments_apart_tail in Hap.
      * simpl in Hlen. lia.
    + rewrite (Hgrow a), (snoc_cons kept a rest), (snoc_cons kept a (filter _ rest)).
      apply IH.
      * now apply Hsnoc.
      * now apply comments_apart_tail in Hap.
      * simpl in Hlen. lia.
Qed.

Lemma strip_comments_apart lines :
  comments_apart lines = true ->
  strip_comments lines = filter (fun l => negb (Str.startswith "#" l)) lines.
Proof.
  intros H. unfold strip_comments.
  pose proof (strip_loop_apart (List.length lines) [] lines (Forall_nil _) H (le_n _)) as E.
  cbn [List.length app] in E. now rewrite E.
Qed.

Lemma strip_comments_total lines :
  exists l, strip_loop (List.length lines) 0 lines = Some l
            /\ strip_comments lines = l.
Proof.
  destruct (strip_loop_total (List.length lines) 0 lines) as [l E]; [lia |].
  exists l. split; [exact E |]. unfold strip_comments. now rewrite E.
Qed.

Lemma list_remove_keeps x y l :
  In y l -> x <> y -> In y (list_remove x l).
Proof.
  induction l as [|z l IH]; simpl; [tauto |].
  intros [-> | H] Hne.
  - destruct (String.eqb x y) eqn:E.
    + apply String.eqb_eq in E. contradiction.
    + now left.
  - destruct (String.eqb x z); [exact H |]. right. now apply IH.
Qed.

Lemma strip_loop_keeps fuel : forall i lines l x,
  strip_loop fuel i lines = Some l ->
  In x lines -> Str.startswith "#" x = false -> In x l.
Proof.
  induction fuel as [|fuel IH]; intros i lines l x H Hin Hx;
    cbn [strip_loop] in H.
  - destruct (nth_error lines i); [discriminate |]. now inversion H; subst.
  - destruct (nth_error lines i) as [line|]; [| now inversion H; subst].
    destruct (Str.startswith "#" line) eqn:E.
    + eapply IH; [exact H | | exact Hx].
      apply list_remove_keeps; [exact Hin |]. intros ->. congruence.
    + eapply IH; eauto.
Qed.

Lemma strip_comments_keeps lines x :
  In x lines -> Str.startswith "#" x = false -> In x (strip_comments lines).
Proof.
  intros Hin Hx. destruct (strip_comments_total lines) as [l [E ->]].
  eapply strip_loop_keeps; eauto.
Qed.

Lemma parse_line_short line :
  List.length (Str.split_ws line) < 2 -> parse_line line = Raise IndexError.
Proof.
  unfold parse_line. destruct (Str.split_ws line) as [|a [|b l]]; simpl;
    intros H; try reflexivity; lia.
Qed.

Lemma parse_line_raises line e : parse_line line = Raise e -> e = IndexError.
Proof.
  unfold parse_line. destruct (Str.split_ws line) as [|a [|b l]];
    intros H; now inversion H.
Qed.

Lemma mapM_parse_raises lines line :
  In line lines -> parse_line line = Raise IndexError ->
  mapM parse_line lines = Raise IndexError.
Proof.
  induction lines as [|l lines IH]; simpl; [tauto |].
  intros [-> | Hin] H.
  - now rewrite H.
  - destruct (parse_line l) eqn:E; simpl.
    + now rewrite IH.
    + now apply parse_line_raises in E; subst.
Qed.

(** C3 (as amended).  A line of the manifest that does not start with
    [#] and holds fewer than two whitespace-separated tokens makes
    [read_checksum_file] raise (an [IndexError]), and the verify branch
    of [main] then ends before any path has been given to the worker
    pool.  A line of two tokens or more is accepted: its first token is
    the digest and its second the path, whatever follows them. *)
Theorem short_line_raises :
  forall text line,
    In line (Str.readlines text) ->
    Str.startswith "#" line = false ->
    (List.length (Str.split_ws line) < 2 ->
     read_checksum_file text = Raise IndexError
     /\ forall fs cwd directory read_size keep_going sched max_workers,
          main_verify fs cwd directory read_size keep_going sched
                      max_workers text
          = (Raise IndexError, []))
    /\ (2 <= List.length (Str.split_ws line) ->
        parse_line line
        = Ok (nth 0 (Str.split_ws line) "", nth 1 (Str.split_ws line) "")).
Proof.
  intros text line Hin Hhash. split.
  - intros Hshort.
    assert (E : read_checksum_file text = Raise IndexError).
    { unfold read_checksum_file, parse_lines.
      apply mapM_parse_raises with (line := line).
      - now apply strip_comments_keeps.
      - now apply parse_line_short. }
    split; [exact E |]. intros. unfold main_verify. now rewrite E.
  - unfold parse_line. destruct (Str.split_ws line) as [|a [|b l]]; simpl;
      intros H; try lia. reflexivity.
Qed.

Lemma short_line_raises_witness :
  read_checksum_file (file_text ["d41d8cd98f00b204e9800998ecf8427e"])
  = Raise IndexError.
Proof.
  apply (proj1 (short_line_raises
                  (file_text ["d41d8cd98f00b204e9800998ecf8427e"])
                  (file_text ["d41d8cd98f00b204e9800998ecf8427e"])
                  (or_introl eq_refl) eq_refl)).
  vm_compute. lia.
Defined.

(** C3 (as stated) fails: a line of three tokens is parsed, not refused. *)
Lemma three_tokens_accepted :
  let line := file_text ["d41d8cd98f00b204e9800998ecf8427e  ./my file.txt"] in
  spec_comment_line line = false
  /\ List.length (Str.split_ws line) = 3
  /\ read_checksum_file line
     = Ok [("d41d8cd98f00b204e9800998ecf8427e", "./my")].
Proof. vm_compute. repeat split. Qed.

(** C4 (as amended).  Among lines in which no line starting with [#]
    directly follows another such line, parsing drops exactly the lines
    whose first character is [#]: none of them contributes a pair, and
    the pairs are those of the other lines, in order.  A [#] that comes
    after leading whitespace does not make a line a comment. *)
Theorem comment_lines_dropped :
  forall lines,
    comments_apart lines = true ->
    parse_lines lines
    = mapM parse_line (filter (fun l => negb (Str.startswith "#" l)) lines).
Proof.
  intros lines H. unfold parse_lines. now rewrite strip_comments_apart.
Qed.

Lemma comment_lines_dropped_witness :
  parse_lines [ file_text ["# made on Monday"];
                file_text ["900150983cd24fb0d6963f7d28e17f72  ./visible.txt"];
                file_text ["# end"] ]
  = Ok [("900150983cd24fb0d6963f7d28e17f72", "./visible.txt")].
Proof.
  rewrite comment_lines_dropped; [| vm_compute]; reflexivity.
Defined.

(** C4 (as stated) fails twice: the second of two adjacent comment lines
    is parsed as data, and so is a comment with leading whitespace. *)
Lemma comment_lines_parsed :
  let adjacent := [ file_text ["#first note"]; file_text ["#second note"] ] in
  let indented := [ file_text ["  # indented note"] ] in
  Forall (fun l => spec_comment_line l = true) (adjacent ++ indented)
  /\ parse_lines adjacent = Ok [("#second", "note")]
  /\ parse_lines indented = Ok [("#", "indented")].
Proof.
  cbv zeta. split; [| split]; [| vm_compute; reflexivity ..].
  repeat constructor.
Qed.

(** ** Hasher *)

Lemma file_read_split limit n f chunk f' :
  file_read limit n f = Ok (chunk, f') -> f = chunk ++ f'.
Proof.
  unfold file_read.
  destruct (n <? -1)%Z; [discriminate |].
  destruct (n =? -1)%Z.
  { destruct (Z.of_N limit <? Z.of_nat (List.length f))%Z; [discriminate |].
    intros H; inversion H; subst. now rewrite app_nil_r. }
  destruct (n =? 0)%Z; [intros H; inversion H; reflexivity |].
  destruct (bytes_max <? n)%Z; [discriminate |].
  destruct (Z.of_N limit <? n)%Z; [discriminate |].
  intros H; inversion H; subst. now rewrite firstn_skipn.
Qed.

Lemma file_read_positive limit n f :
  (0 < n)%Z -> (n <= bytes_max)%Z -> (n <= Z.of_N limit)%Z ->
  file_read limit n f
  = Ok (firstn (Z.to_nat n) f, skipn (Z.to_nat n) f).
Proof.
  intros H0 Hb Hl. unfold file_read.
  destruct (n <? -1)%Z eqn:E1; [apply Z.ltb_lt in E1; lia |].
  destruct (n =? -1)%Z eqn:E2; [apply Z.eqb_eq in E2; lia |].
  destruct (n =? 0)%Z eqn:E3; [apply Z.eqb_eq in E3; lia |].
  destruct (bytes_max <? n)%Z eqn:E4; [apply Z.ltb_lt in E4; lia |].
  destruct (Z.of_N limit <? n)%Z eqn:E5; [apply Z.ltb_lt in E5; lia |].
  reflexivity.
Qed.


(** The loop of line 23 ends: the fuel given by [hash_stream] is
    enough. *)
Lemma read_loop_total fuel : forall limit read_size f hasher,
  List.length f <= fuel ->
  exists r, read_loop fuel limit read_size f hasher = Some r.
Proof.
  induction fuel as [|fuel IH]; intros limit read_size f hasher Hlen;
    cbn [read_loop];
    destruct (file_read limit read_size f) as [[chunk f']|e] eqn:E;
    try (eexists; reflexivity);
    destruct chunk as [|b chunk]; try (eexists; reflexivity);
    apply file_read_split in E; subst f;
    rewrite length_app in Hlen; simpl in Hlen.
  - lia.
  - apply IH. lia.
Qed.

(** A positive size within the limits reads the whole stream. *)
Lemma read_loop_positive fuel : forall limit read_size f hasher,
  (0 < read_size)%Z -> (read_size <= bytes_max)%Z -> (read_size <= Z.of_N limit)%Z ->
  List.length f <= fuel ->
  read_loop fuel limit read_size f hasher = Some (Ok (hasher ++ f)).
Proof.
  induction fuel as [|fuel IH]; intros limit read_size f hasher H0 Hb Hl Hlen;
    cbn [read_loop]; rewrite (file_read_positive _ _ _ H0 Hb Hl).
  - destruct f; [| simpl in Hlen; lia].
    rewrite firstn_nil, app_nil_r. reflexivity.
  - destruct (firstn (Z.to_nat read_size) f) as [|b chunk] eqn:E.
    + destruct f as [|b f]; [now rewrite app_nil_r |].
      destruct (Z.to_nat read_size) eqn:En; [lia | discriminate].
    + rewrite IH; try assumption.
      * rewrite <- app_assoc, <- E, firstn_skipn. reflexivity.
      * rewrite length_skipn.
        assert (Z.to_nat read_size <> 0) by lia.
        destruct f; [rewrite firstn_nil in E; discriminate |].
        cbn [List.length] in Hlen |- *. lia.
Qed.



(** With a granted read size the digest is that of the content. *)
Lemma hash_stream_md5 limit read_size content :
  (0 < read_size)%Z -> (read_size <= bytes_max)%Z -> (read_size <= Z.of_N limit)%Z ->
  hash_stream limit read_size content = Ok (MD5.hexdigest content).
Proof.
  intros H0 Hb Hl. unfold hash_stream.
  now rewrite (read_loop_positive _ _ _ _ [] H0 Hb Hl (le_n _)).
Qed.

(** The exceptions of a read are not those of [open]. *)
Lemma file_read_raises limit n f e :
  file_read limit n f = Raise e ->
  e = ValueError_read_length \/ e = OverflowError \/ e = MemoryError.
Proof.
  unfold file_read.
  destruct (n <? -1)%Z; [intros H; inversion H; auto |].
  destruct (n =? -1)%Z.
  { destruct (Z.of_N limit <? Z.of_nat (List.length f))%Z;
      [intros H; inversion H; auto | discriminate]. }
  destruct (n =? 0)%Z; [discriminate |].
  destruct (bytes_max <? n)%Z; [intros H; inversion H; auto |].
  destruct (Z.of_N limit <? n)%Z; [intros H; inversion H; auto | discriminate].
Qed.

Lemma read_loop_raised fuel : forall limit read_size f hasher e,
  read_loop fuel limit read_size f hasher = Some (Raise e) ->
  e = ValueError_read_length \/ e = OverflowError \/ e = MemoryError.
Proof.
  induction fuel as [|fuel IH]; intros limit read_size f hasher e;
    cbn [read_loop];
    destruct (file_read limit read_size f) as [[chunk f']|e'] eqn:E.
  - destruct chunk; discriminate.
  - intros H; inversion H; subst. eapply file_read_raises; eassumption.
  - destruct chunk; [discriminate | apply IH].
  - intros H; inversion H; subst. eapply file_read_raises; eassumption.
Qed.

Lemma hash_stream_raised limit read_size content e :
  hash_stream limit read_size content = Raise e ->
  e = ValueError_read_length \/ e = OverflowError \/ e = MemoryError.
Proof.
  unfold hash_stream.
  destruct (read_loop (List.length content) limit read_size content [])
    as [[h|e']|] eqn:E; try discriminate.
  intros H; inversion H; subst. eapply read_loop_raised; eassumption.
Qed.

(** What a task can raise: the [OSError] of an [open] that fails, or the
    exception of a read. *)
Lemma task_raises fs path read_size pass e :
  calculate_file_checksum fs path read_size pass = Raise e ->
  (fs path = Some Unreadable /\ e = OSError path)
  \/ (exists content,
         fs path = Some (Regular content)
         /\ hash_stream (buffer_max fs) read_size content = Raise e
         /\ (e = ValueError_read_length \/ e = OverflowError
             \/ e = MemoryError)).
Proof.
  unfold calculate_file_checksum.
  destruct (fs path) as [[content|]|] eqn:E; [| | discriminate].
  - destruct (hash_stream (buffer_max fs) read_size content) as [d|e'] eqn:Eh;
      cbn [bind]; [discriminate |].
    intros H; inversion H; subst. right. exists content.
    split; [reflexivity |]. split; [exact Eh |].
    eapply hash_stream_raised; eassumption.
  - intros H; inversion H. left. auto.
Qed.

Lemma granted_example : granted Example.fs 4096.
Proof. solve_granted. Qed.

(** With a granted read size a task raises for an unreadable file
    only. *)
Lemma task_raises_unreadable fs path read_size pass e :
  granted fs read_size ->
  calculate_file_checksum fs path read_size pass = Raise e ->
  fs path = Some Unreadable /\ e = OSError path.
Proof.
  intros (H0 & Hb & Hl) H. apply task_raises in H.
  destruct H as [H | (content & _ & Hh & _)]; [exact H |].
  rewrite (hash_stream_md5 _ _ content H0 Hb Hl) in Hh. discriminate.
Qed.

Lemma task_granted fs path read_size pass content :
  granted fs read_size ->
  fs path = Some (Regular content) ->
  calculate_file_checksum fs path read_size pass
  = Ok (path, Some (MD5.hexdigest content), pass).
Proof.
  intros (H0 & Hb & Hl) E. unfold calculate_file_checksum. rewrite E.
  now rewrite (hash_stream_md5 _ _ content H0 Hb Hl).
Qed.

(** ** Tree enumerator *)

Lemma tree_ind (P : tree -> Prop) :
  (forall subdirs files,
      Forall (fun dt => P (snd dt)) subdirs -> P (Dir subdirs files)) ->
  forall t, P t.
Proof.
  intros H. fix IH 1. intros [subdirs files]. apply H.
  induction subdirs as [|dt ds IHds]; constructor; [apply IH | exact IHds].
Qed.

Lemma walker_inv_init batch_size : walker_inv batch_size (Walker [] []) [].
Proof. split; simpl; auto. Qed.

Lemma visit_file_inv batch_size skip_hidden root w seen file :
  walker_inv batch_size w seen ->
  walker_inv batch_size (visit_file batch_size skip_hidden root w file)
    (seen ++ filter (fun p => negb skip_hidden || negb (is_hidden p))
                    [Path.join root file]).
Proof.
  intros [Hfull Hne Hseen Hroom]. unfold visit_file. cbn [filter].
  destruct (negb skip_hidden || negb (is_hidden (Path.join root file)));
    [| rewrite app_nil_r; now split].
  destruct (Z.of_nat (List.length (file_batch w ++ [Path.join root file]))
            =? batch_size)%Z eqn:E.
  - apply Z.eqb_eq in E. split; cbn [yielded file_batch].
    + apply Forall_app; split; [assumption | now constructor].
    + apply Forall_app; split; [assumption |]. constructor; [| constructor].
      now destruct (file_batch w).
    + rewrite concat_app. simpl. rewrite !app_nil_r, app_assoc. now rewrite Hseen.
    + simpl. lia.
  - apply Z.eqb_neq in E. split; cbn [yielded file_batch]; try assumption.
    + rewrite app_assoc. now rewrite Hseen.
    + intros Hpos. specialize (Hroom Hpos).
      rewrite length_app in *. simpl in *. lia.
Qed.

Lemma visit_dir_inv batch_size skip_hidden root dirs files : forall w seen,
  walker_inv batch_size w seen ->
  walker_inv batch_size
    (visit_dir batch_size skip_hidden w (root, dirs, files))
    (seen ++ filter (fun p => negb skip_hidden || negb (is_hidden p))
                    (map (Path.join root) files)).
Proof.
  unfold visit_dir. induction files as [|file files IH]; intros w seen H.
  - simpl. now rewrite app_nil_r.
  - cbn [fold_left map].
    apply (visit_file_inv _ skip_hidden root _ _ file) in H.
    apply IH in H. cbn [filter] in *.
    destruct (negb skip_hidden || negb (is_hidden (Path.join root file)));
      [| now rewrite app_nil_r in H].
    now rewrite <- app_assoc in H.
Qed.

Lemma walk_inv batch_size skip_hidden entries : forall w seen,
  walker_inv batch_size w seen ->
  walker_inv batch_size
    (fold_left (visit_dir batch_size skip_hidden) entries w)
    (seen ++ flat_map
               (fun entry : string * list string * list string =>
                  let '(root, _, files) := entry in
                  filter (fun p => negb skip_hidden || negb (is_hidden p))
                         (map (Path.join root) files))
               entries).
Proof.
  induction entries as [|[[root dirs] files] entries IH]; intros w seen H.
  - simpl. now rewrite app_nil_r.
  - cbn [fold_left flat_map].
    apply (visit_dir_inv _ skip_hidden root dirs files) in H.
    apply IH in H. now rewrite <- app_assoc in H.
Qed.

Lemma batch_os_walk_inv directory batch_size skip_hidden t :
  exists w,
    walker_inv batch_size w (discovered directory skip_hidden t)
    /\ batch_os_walk directory batch_size skip_hidden t
       = match file_batch w with
         | [] => yielded w
         | _ :: _ => yielded w ++ [file_batch w]
         end.
Proof.
  eexists. split; [| reflexivity].
  apply (walk_inv batch_size skip_hidden _ _ [] (walker_inv_init batch_size)).
Qed.

Lemma concat_batch_os_walk directory batch_size skip_hidden t :
  List.concat (batch_os_walk directory batch_size skip_hidden t)
  = discovered directory skip_hidden t.
Proof.
  destruct (batch_os_walk_inv directory batch_size skip_hidden t)
    as [w [[_ _ Hseen _] ->]].
  destruct (file_batch w) eqn:E.
  - now rewrite app_nil_r in Hseen.
  - rewrite concat_app. simpl. now rewrite app_nil_r.
Qed.

(** C7.  Whatever the tree and the batch size, every batch that
    [batch_os_walk] yields before the last holds exactly [batch_size]
    paths; no batch is empty, so the remainder is yielded only when
    there is one, and (for a positive size) it holds at most
    [batch_size] paths; and the batches, put end to end, are the
    discovered paths that were not skipped, each occurrence once and in
    the order of the traversal. *)
Theorem batches_partition_discovered :
  forall directory batch_size skip_hidden t,
    let batches := batch_os_walk directory batch_size skip_hidden t in
    (forall front last,
        batches = front ++ [last] ->
        Forall (fun b => Z.of_nat (List.length b) = batch_size) front)
    /\ Forall (fun b => b <> []) batches
    /\ ((0 < batch_size)%Z ->
        Forall (fun b => (Z.of_nat (List.length b) <= batch_size)%Z) batches)
    /\ List.concat batches = discovered directory skip_hidden t
    /\ (forall p, count_occ string_dec (List.concat batches) p
                  = count_occ string_dec (discovered directory skip_hidden t) p).
Proof.
  intros directory batch_size skip_hidden t batches.
  pose proof (concat_batch_os_walk directory batch_size skip_hidden t) as Hcat.
  fold batches in Hcat.
  destruct (batch_os_walk_inv directory batch_size skip_hidden t)
    as [w [[Hfull Hne Hseen Hroom] Hb]].
  fold batches in Hb.
  repeat split.
  - intros front last E. rewrite Hb in E.
    destruct (file_batch w) as [|p fb].
    + rewrite E in Hfull. now apply Forall_app in Hfull.
    + apply app_inj_tail in E as [<- _]. exact Hfull.
  - rewrite Hb. destruct (file_batch w) as [|p fb]; [exact Hne |].
    apply Forall_app; split; [exact Hne |]. now repeat constructor.
  - intros Hpos. rewrite Hb.
    assert (Hle : Forall (fun b => (Z.of_nat (List.length b) <= batch_size)%Z)
                         (yielded w)).
    { eapply Forall_impl; [| exact Hfull]. simpl. intros; lia. }
    destruct (file_batch w) as [|p fb] eqn:E; [exact Hle |].
    apply Forall_app; split; [exact Hle |]. constructor; [| constructor].
    specialize (Hroom Hpos). lia.
  - exact Hcat.
  - intros p. now rewrite Hcat.
Qed.

(** *** Hidden entries *)

Lemma split_on_nonempty c s : Str.split_on c s <> [].
Proof.
  destruct s as [|a s]; simpl; [discriminate |].
  destruct (Ascii.eqb a c); [discriminate |].
  destruct (Str.split_on c s); discriminate.
Qed.

Lemma split_on_app_sep c a b :
  Str.split_on c (a ++ String c b)%string = Str.split_on c a ++ Str.split_on c b.
Proof.
  induction a as [|x a IH]; simpl.
  - now rewrite Ascii.eqb_refl.
  - destruct (Ascii.eqb x c); [now rewrite IH |].
    rewrite IH. pose proof (split_on_nonempty c a).
    now destruct (Str.split_on c a).
Qed.

Lemma is_hidden_app_sep a b :
  is_hidden (a ++ "/" ++ b)%string = is_hidden a || is_hidden b.
Proof.
  unfold is_hidden. change ("/" ++ b)%string with (String Str.sep b).
  now rewrite split_on_app_sep, existsb_app.
Qed.

Lemma endswith_sep_inv a :
  Str.endswith "/" a = true -> exists r, a = (r ++ "/")%string.
Proof.
  induction a as [|x a IH]; simpl; [discriminate |].
  intros H. apply orb_prop in H as [H | H].
  - destruct a; [| destruct x as [[] [] [] [] [] [] [] []]; discriminate].
    exists "". simpl. f_equal. symmetry.
    destruct x as [[] [] [] [] [] [] [] []]; try discriminate. reflexivity.
  - destruct (IH H) as [r ->]. now exists (String x r).
Qed.

Lemma legal_name_no_lead n : legal_name n = true -> Str.startswith "/" n = false.
Proof.
  unfold legal_name. intros H. apply andb_prop in H as [_ H].
  destruct n as [|c n]; [reflexivity |]. simpl in *.
  apply andb_prop in H as [H _]. rewrite Ascii.eqb_sym.
  unfold Str.sep in H. now destruct (Ascii.eqb c "/").
Qed.

Lemma is_hidden_join root name :
  Str.startswith "/" name = false ->
  is_hidden root = true -> is_hidden (Path.join root name) = true.
Proof.
  intros Hn Hr. unfold Path.join. rewrite Hn.
  destruct (String.eqb root "") eqn:E0.
  { apply String.eqb_eq in E0. subst. discriminate. }
  cbn [orb]. destruct (Str.endswith "/" root) eqn:Ee.
  - destruct (endswith_sep_inv _ Ee) as [r ->].
    rewrite string_app_assoc.
    change (r ++ "/")%string with (r ++ "/" ++ "")%string in Hr.
    change ("/" ++ name)%string with ("/" ++ "" ++ name)%string.
    rewrite is_hidden_app_sep. rewrite is_hidden_app_sep in Hr.
    change (is_hidden "") with false in Hr. rewrite orb_false_r in Hr.
    now rewrite Hr.
  - rewrite is_hidden_app_sep. now rewrite Hr.
Qed.

Lemma os_walk_hidden_roots keep : forall t top,
  legal_tree t = true -> is_hidden top = true ->
  Forall (fun e : string * list string * list string =>
            let '(root, _, files) := e in
            is_hidden root = true /\ forallb legal_name files = true)
         (os_walk keep top t).
Proof.
  induction t as [subdirs files IH] using tree_ind. intros top Hl Hh.
  cbn [os_walk legal_tree] in *. apply andb_prop in Hl as [Hf Hd].
  constructor; [now split |].
  induction subdirs as [|[d sub] ds IHds]; [constructor |].
  apply andb_prop in Hd as [Hd Hds]. apply andb_prop in Hd as [Hd Hsub].
  inversion IH as [|? ? IHsub IHrest]; subst.
  apply Forall_app; split; [| now apply IHds].
  destruct (keep d); [| constructor].
  apply IHsub; [exact Hsub |].
  apply is_hidden_join; [now apply legal_name_no_lead | exact Hh].
Qed.

Lemma visit_hidden_dir batch_size root dirs files w :
  is_hidden root = true -> forallb legal_name files = true ->
  visit_dir batch_size true w (root, dirs, files) = w.
Proof.
  intros Hr. unfold visit_dir. induction files as [|f files IH]; [reflexivity |].
  cbn [forallb fold_left]. intros H. apply andb_prop in H as [Hf Hfs].
  unfold visit_file at 2.
  rewrite (is_hidden_join root f (legal_name_no_lead _ Hf) Hr).
  cbn [negb orb]. now apply IH.
Qed.

(** C10.  The test for hidden entries reads the whole joined path, the
    root's own components included: when a component of the root starts
    with [.], enumeration with [skip_hidden] set yields no batch at all,
    whatever the tree holds, hidden or not. *)
Theorem hidden_root_hides_everything :
  forall directory batch_size t,
    legal_tree t = true ->
    is_hidden directory = true ->
    batch_os_walk directory batch_size true t = [].
Proof.
  intros directory batch_size t Hl Hh. unfold batch_os_walk.
  pose proof (os_walk_hidden_roots (keep_dir true) t directory Hl Hh) as H.
  assert (E : fold_left (visit_dir batch_size true)
                (os_walk (keep_dir true) directory t) (Walker [] [])
              = Walker [] []).
  { induction H as [|[[root dirs] files] entries [Hr Hf] _ IH]; [reflexivity |].
    cbn [fold_left]. now rewrite visit_hidden_dir. }
  now rewrite E.
Qed.

Lemma hidden_root_hides_everything_witness :
  batch_os_walk "/home/joe/.cache/data" 100 true (Dir [] ["visible.txt"]) = []
  /\ is_hidden "/home/joe/.cache/data/visible.txt" = true
  /\ is_hidden "visible.txt" = false.
Proof.
  split; [| split; reflexivity].
  apply hidden_root_hides_everything; reflexivity.
Defined.

Lemma os_walk_prune : forall t top,
  os_walk (keep_dir true) top t = os_walk (fun _ => true) top (prune t).
Proof.
  induction t as [subdirs files IH] using tree_ind. intros top.
  cbn [os_walk prune]. f_equal.
  - assert (E : forall ds : list (string * tree),
               map fst (filter (fun dt => keep_dir true (fst dt)) ds)
               = map fst (filter (fun _ : string * tree => true)
                   ((fix go (ds : list (string * tree)) :=
                       match ds with
                       | [] => []
                       | (d, sub) :: ds' =>
                           if Str.startswith "." d then go ds'
                           else (d, prune sub) :: go ds'
                       end) ds))).
    { induction ds as [|[d sub] ds IHds]; [reflexivity |].
      cbn [filter fst]. unfold keep_dir at 1. cbn [andb].
      destruct (Str.startswith "." d); cbn [negb]; [exact IHds |].
      cbn [filter fst map]. now rewrite IHds. }
    now rewrite E.
  - induction subdirs as [|[d sub] ds IHds]; [reflexivity |].
    inversion IH as [|? ? IHsub IHrest]; subst.
    unfold keep_dir at 1. cbn [andb].
    destruct (Str.startswith "." d); cbn [negb].
    + now rewrite IHds.
    + cbn [snd] in IHsub. rewrite IHsub, IHds by assumption. reflexivity.
Qed.

Lemma discovered_visible directory t p :
  In p (discovered directory true t) -> is_hidden p = false.
Proof.
  unfold discovered. intros H. apply in_flat_map in H as [[[root dirs] files] [_ H]].
  apply filter_In in H as [_ H]. cbn [negb orb] in H.
  now destruct (is_hidden p).
Qed.

Lemma fair_singleton sched i {A} (x : A) : fair sched -> sched i A [x] = [x].
Proof.
  intros H. specialize (H i A [x]). apply Permutation_sym in H.
  now apply Permutation_length_1_inv in H.
Qed.

(** ** Worker pool *)

Lemma firstn_add {A} (a b : nat) (l : list A) :
  firstn (a + b) l = firstn a l ++ firstn b (skipn a l).
Proof.
  revert l. induction a as [|a IH]; intros l; [reflexivity |].
  destruct l as [|x l]; simpl.
  - now rewrite firstn_nil.
  - now rewrite IH.
Qed.

Lemma slice_clip {A} (l : list A) (a k : nat) :
  slice l a (Nat.min (a + k) (List.length l)) = firstn k (skipn a l).
Proof.
  unfold slice.
  destruct (Nat.le_gt_cases (a + k) (List.length l)) as [H | H].
  - rewrite Nat.min_l by lia. f_equal. lia.
  - rewrite Nat.min_r by lia.
    rewrite !firstn_all2; try reflexivity; rewrite length_skipn; lia.
Qed.

Lemma batch_concat {A} (l : list A) (n : Z) chunks :
  (0 < n)%Z -> batch l n = Ok chunks -> List.concat chunks = l.
Proof.
  intros Hpos. unfold batch.
  destruct (n =? 0)%Z eqn:E0; [apply Z.eqb_eq in E0; lia |].
  destruct (n <? 0)%Z eqn:E1; [apply Z.ltb_lt in E1; lia |].
  intros H. inversion H as [Hc]. clear H Hc chunks.
  set (k := Z.to_nat n). assert (Hk : 0 < k) by (unfold k; lia).
  unfold range0. rewrite map_map.
  set (m := (List.length l + k - 1) / k).
  assert (Hall : forall m',
             List.concat
               (map (fun j => slice l (j * k)
                                 (Nat.min (j * k + k) (List.length l)))
                    (seq 0 m'))
             = firstn (m' * k) l).
  { induction m' as [|m' IH]; [reflexivity |].
    rewrite seq_S, map_app, concat_app, IH. cbn [map List.concat plus].
    rewrite app_nil_r, slice_clip.
    replace (S m' * k) with (m' * k + k) by lia.
    now rewrite firstn_add. }
  rewrite Hall. apply firstn_all2.
  pose proof (Nat.div_mod_eq (List.length l + k - 1) k) as Hd.
  pose proof (Nat.mod_upper_bound (List.length l + k - 1) k) as Hm.
  fold m in Hd. nia.
Qed.

(** ** Verification orchestrator *)

Section VerificationFacts.
Variable fs : filesystem.
Variable cwd : string.
Variable directory_path : string.
Variable read_size : Z.
Variable keep_going : bool.

Lemma consume_all_cases : forall completed st st' oe,
  consume_all fs read_size keep_going completed st = (st', oe) ->
  exists done todo rs,
    completed = done ++ todo
    /\ Forall2 (returns fs read_size) done rs
    /\ results st' = results st ++ rs
    /\ ledgers st' = ledgers st ++ grow (results st) rs
    /\ submitted st' = submitted st
    /\ batch_end fs read_size keep_going rs todo oe.
Proof.
  induction completed as [|f completed IH]; intros st st' oe H.
  - inversion H; subst. exists [], [], []. rewrite !app_nil_r.
    repeat split; auto. left. auto.
  - cbn [consume_all] in H. unfold consume in H.
    destruct (calculate_file_checksum fs (fut_path f) read_size (fut_expected f))
      as [[[p c] e]|err] eqn:Ec.
    + assert (Hkeep : forall st1 oe1,
                 consume_all fs read_size keep_going completed
                   (append_result (p, c, e) st) = (st1, oe1) ->
                 (option_eqb e c = true \/ keep_going = true) ->
                 exists done todo rs,
                   f :: completed = done ++ todo
                   /\ Forall2 (returns fs read_size) done rs
                   /\ results st1 = results st ++ rs
                   /\ ledgers st1 = ledgers st ++ grow (results st) rs
                   /\ submitted st1 = submitted st
                   /\ batch_end fs read_size keep_going rs todo oe1).
      { intros st1 oe1 H1 Hok. apply IH in H1.
        destruct H1 as (done & todo & rs & -> & HF & Hr & Hl & Hs & Hend).
        exists (f :: done), todo, ((p, c, e) :: rs).
        cbn [append_result results ledgers submitted] in *.
        split; [reflexivity |].
        split; [constructor; [exact Ec | exact HF] |].
        split; [now rewrite Hr, <- app_assoc |].
        split; [now rewrite Hl, <- app_assoc |].
        split; [exact Hs |].
        assert (Hcons : forall l, (keep_going = false -> forallb matches l = true) ->
                  keep_going = false -> forallb matches ((p, c, e) :: l) = true).
        { intros l Hm Hk. cbn [forallb matches].
          destruct Hok as [-> | Hk']; [now apply Hm | congruence]. }
        destruct Hend as [(-> & -> & Hm) | [(f' & e' & rest & -> & Hc & -> & Hm) | (Hk & earlier & r & -> & Hm & Hr' & ->)]].
        - left. repeat split; auto.
        - right; left. exists f', e', rest. repeat split; auto.
        - right; right. split; [exact Hk |].
          exists ((p, c, e) :: earlier), r. repeat split; auto. }
      destruct (option_eqb e c) eqn:Em; [eapply Hkeep; eauto |].
      destruct keep_going eqn:Ek; [eapply Hkeep; eauto |].
      inversion H; subst. exists [f], completed, [(p, c, e)].
      cbn [append_result results ledgers submitted grow].
      split; [reflexivity |].
      split; [constructor; [exact Ec | constructor] |].
      repeat (split; [reflexivity |]).
      right; right. split; [reflexivity |].
      exists [], (p, c, e). repeat split; auto.
    + inversion H; subst. exists [], (f :: completed), [].
      rewrite !app_nil_r. repeat split; auto.
      right; left. exists f, err, completed. repeat split; auto.
Qed.

Lemma grow_app : forall rs1 base rs2,
  grow base (rs1 ++ rs2) = grow base rs1 ++ grow (base ++ rs1) rs2.
Proof.
  induction rs1 as [|r rs1 IH]; intros base rs2; cbn [grow app].
  - now rewrite app_nil_r.
  - rewrite IH, <- app_assoc. reflexivity.
Qed.

Lemma grow_In : forall rs base l,
  In l (grow base rs) ->
  exists k, k <= List.length rs /\ l = base ++ firstn k rs.
Proof.
  induction rs as [|r rs IH]; intros base l H; [destruct H |].
  destruct H as [<- | H].
  - exists 1. split; [simpl; lia | reflexivity].
  - apply IH in H as [k [Hk ->]]. exists (S k). split; [simpl; lia |].
    now rewrite <- app_assoc.
Qed.

Lemma batch_end_app rs1 rs2 rest oe :
  batch_end fs read_size keep_going rs1 [] None ->
  batch_end fs read_size keep_going rs2 rest oe ->
  batch_end fs read_size keep_going (rs1 ++ rs2) rest oe.
Proof.
  intros H1 H2.
  assert (Hm1 : keep_going = false -> forallb matches rs1 = true).
  { destruct H1 as [(_ & _ & Hm) | [(f & e & r & Hc & _) | (_ & earlier & r & _ & _ & _ & Hc)]];
      [exact Hm | discriminate | discriminate]. }
  destruct H2 as [(-> & -> & Hm) | [(f' & e' & r' & -> & Hc & -> & Hm) | (Hk & earlier & r & -> & Hm & Hr' & ->)]].
  - left. repeat split; auto. intros Hk. rewrite forallb_app, Hm1, Hm; auto.
  - right; left. exists f', e', r'. repeat split; auto.
    intros Hk. rewrite forallb_app, Hm1, Hm; auto.
  - right; right. split; [exact Hk |].
    exists (rs1 ++ earlier), r. rewrite app_assoc. repeat split; auto.
    rewrite forallb_app, Hm1, Hm; auto.
Qed.

(** The exception of a task is never the mismatch error of line 136. *)
Lemma task_raises_no_mismatch path pass e file_path expected calculated :
  calculate_file_checksum fs path read_size pass = Raise e ->
  e <> InvalidChecksum file_path expected calculated.
Proof.
  intros H. apply task_raises in H.
  destruct H as [[_ ->] | (content & _ & _ & [-> | [-> | ->]])]; discriminate.
Qed.

Lemma verify_chunks_cases sched : fair sched ->
  forall chunks i st st' oe,
    verify_chunks fs cwd directory_path read_size keep_going sched i chunks st
    = (st', oe) ->
    exists n done rest rs,
      n <= List.length chunks
      /\ Permutation
           (map (submit cwd directory_path) (List.concat (firstn n chunks)))
           (done ++ rest)
      /\ Forall2 (returns fs read_size) done rs
      /\ results st' = results st ++ rs
      /\ ledgers st' = ledgers st ++ grow (results st) rs
      /\ submitted st'
         = submitted st
           ++ map fut_path
                (map (submit cwd directory_path) (List.concat (firstn n chunks)))
      /\ batch_end fs read_size keep_going rs rest oe
      /\ (oe = None -> n = List.length chunks)
      /\ (forall e, oe = Some e ->
            exists m, n = S m
              /\ List.length (List.concat (firstn m chunks)) <= List.length rs
              /\ (forall r, e = mismatch_error r ->
                    List.length (List.concat (firstn m chunks))
                    < List.length rs)).
Proof.
  intros Hfair. induction chunks as [|chunk chunks IH]; intros i st st' oe H.
  - inversion H; subst. exists 0, [], [], []. cbn. rewrite !app_nil_r.
    repeat split; auto; try discriminate. left. auto.
  - cbn [verify_chunks] in H.
    destruct (consume_all fs read_size keep_going
                (sched i future (map (submit cwd directory_path) chunk))
                {| results := results st; ledgers := ledgers st;
                   submitted := submitted st
                     ++ map fut_path (map (submit cwd directory_path) chunk) |})
      as [st2 oe2] eqn:E2.
    apply consume_all_cases in E2.
    destruct E2 as (done2 & todo2 & rs2 & Hsplit & HF2 & Hr2 & Hl2 & Hs2 & Hend2).
    cbn [results ledgers submitted] in Hr2, Hl2, Hs2.
    assert (Hperm2 : Permutation (map (submit cwd directory_path) chunk)
                                 (done2 ++ todo2)).
    { rewrite <- Hsplit. apply Permutation_sym, Hfair. }
    destruct oe2 as [e2|].
    + inversion H; subst st' oe. exists 1, done2, todo2, rs2.
      cbn [firstn List.concat]. rewrite !app_nil_r.
      split; [simpl; lia |]. repeat (split; [assumption |]).
      split; [discriminate |].
      intros e He. inversion He; subst e. exists 0. split; [reflexivity |].
      cbn. split; [lia |]. intros r Hr.
      destruct Hend2 as [(Hc & _) | [(f' & e' & rest & _ & Hc & He' & _) | (_ & earlier & r' & -> & _)]].
      * discriminate.
      * inversion He' as [He2]. rewrite Hr in He2.
        destruct r as [[fp calc] expd]. cbn [mismatch_error] in He2.
        inversion He2 as [[Hf He3]].
        symmetry in He3.
        now apply (task_raises_no_mismatch _ _ _ (fut_file f') expd calc) in Hc.
      * rewrite length_app. simpl. lia.
    + assert (Htodo : todo2 = []).
      { destruct Hend2 as [(_ & Ht & _) | [(f' & e' & rest & _ & _ & Hc & _) | (_ & earlier & r' & _ & _ & _ & Hc)]];
          [exact Ht | discriminate | discriminate]. }
      subst todo2. rewrite app_nil_r in Hperm2, Hsplit.
      apply IH in H.
      destruct H as (n & done & rest & rs & Hn & Hperm & HF & Hr & Hl & Hs & Hend & Hnone & Hsome).
      exists (S n), (done2 ++ done), rest, (rs2 ++ rs).
      cbn [firstn List.concat].
      split; [simpl; lia |].
      split.
      { rewrite map_app, <- app_assoc. now apply Permutation_app. }
      split; [now apply Forall2_app |].
      split; [now rewrite Hr, Hr2, app_assoc |].
      split; [now rewrite Hl, Hl2, Hr2, grow_app, app_assoc |].
      split; [now rewrite Hs, Hs2, !map_app, app_assoc |].
      split; [now apply batch_end_app |].
      split; [intros Hoe; simpl; now rewrite Hnone |].
      intros e He. destruct (Hsome e He) as (m & -> & Hlen & Hstrict).
      exists (S m). split; [reflexivity |].
      cbn [firstn List.concat].
      assert (Hsame : List.length chunk = List.length rs2).
      { rewrite <- (Forall2_length HF2).
        rewrite <- (Permutation_length Hperm2). now rewrite length_map. }
      rewrite !length_app. split; [lia |].
      intros r Hr'. specialize (Hstrict r Hr'). lia.
Qed.

(** The two ways a call of [verify_checksums_multithread] goes: the
    executor refuses its [max_workers], or the chunks of the manifest
    are consumed one after the other. *)
Lemma verify_run_cases sched max_workers checksums st oe :
  fair sched ->
  verify_run fs cwd directory_path read_size keep_going sched max_workers
             checksums = (st, oe) ->
  ((max_workers <= 0)%Z /\ st = VState [] [[]] []
   /\ oe = Some ValueError_max_workers)
  \/ ((0 < max_workers)%Z
      /\ exists chunks,
           batch checksums (max_workers * 4) = Ok chunks
           /\ List.concat chunks = checksums
           /\ verify_chunks fs cwd directory_path read_size keep_going sched
                0 chunks (VState [] [[]] []) = (st, oe)).
Proof.
  intros Hfair. unfold verify_run, executor.
  destruct (max_workers <=? 0)%Z eqn:E.
  - apply Z.leb_le in E. intros H; inversion H. left. auto.
  - apply Z.leb_gt in E.
    destruct (batch checksums (max_workers * 4)) as [chunks|e] eqn:Eb.
    + intros H. right. split; [exact E |]. exists chunks.
      split; [reflexivity |]. split; [| exact H].
      apply (batch_concat checksums (max_workers * 4)); [lia | exact Eb].
    + unfold batch in Eb.
      destruct (max_workers * 4 =? 0)%Z eqn:E0; [apply Z.eqb_eq in E0; lia |].
      destruct (max_workers * 4 <? 0)%Z; discriminate.
Qed.

End VerificationFacts.

Lemma Forall2_firstn {A B} (R : A -> B -> Prop) k : forall l1 l2,
  Forall2 R l1 l2 -> Forall2 R (firstn k l1) (firstn k l2).
Proof.
  induction k as [|k IH]; intros l1 l2 H; [constructor |].
  destruct H; cbn [firstn]; constructor; auto.
Qed.

Lemma concat_firstn_length {A} (n : nat) (chunks : list (list A)) :
  List.length (List.concat (firstn n chunks))
  <= List.length (List.concat chunks).
Proof.
  rewrite <- (firstn_skipn n chunks) at 2. rewrite concat_app, length_app. lia.
Qed.

Lemma grow_last base rs : In (base ++ rs) (base :: grow base rs).
Proof.
  destruct rs as [|r rs] using rev_ind; [left; now rewrite app_nil_r |].
  right. rewrite grow_app. apply in_or_app. right. cbn [grow].
  left. now rewrite <- app_assoc.
Qed.

Lemma fifo_fair : fair fifo.
Proof. intros i A l. apply Permutation_refl. Qed.

Lemma lifo_fair : fair lifo.
Proof. intros i A l. apply Permutation_sym, Permutation_rev. Qed.

(** C9.  In a verify run every value the ledger takes, the one the run
    ends with included, holds at most as many triples as the manifest
    has entries: its triples are the results of distinct entries of the
    manifest, one triple for each, every triple carrying the absolute
    path, the computed digest and the expected digest of its entry. *)
Theorem ledger_within_manifest :
  forall fs cwd directory read_size keep_going sched max_workers checksums
         st oe,
    fair sched ->
    verify_run fs cwd directory read_size keep_going sched max_workers
               checksums = (st, oe) ->
    Forall (fun ledger =>
              List.length ledger <= List.length checksums
              /\ exists entries others,
                   Permutation checksums (entries ++ others)
                   /\ Forall2 (fun entry r =>
                                 returns fs read_size (submit cwd directory entry) r)
                              entries ledger)
           (ledgers st)
    /\ In (results st) (ledgers st)
    /\ (forall ledger,
           verify_checksums_multithread fs cwd directory read_size keep_going
             sched max_workers checksums = Ok ledger ->
           ledger = results st).
Proof.
  intros fs cwd directory read_size keep_going sched max_workers checksums
         st oe Hfair Hrun.
  assert (Hempty : List.length (@nil triple) <= List.length checksums
                   /\ exists entries others,
                        Permutation checksums (entries ++ others)
                        /\ Forall2 (fun entry r =>
                                      returns fs read_size (submit cwd directory entry) r)
                                   entries (@nil triple)).
  { split; [simpl; lia |]. exists [], checksums. split; [apply Permutation_refl | constructor]. }
  split; [| split].
  - destruct (verify_run_cases _ _ _ _ _ _ _ _ _ _ Hfair Hrun)
      as [(_ & -> & _) | (_ & chunks & _ & Hcat & Hchunks)].
    { constructor; [exact Hempty | constructor]. }
    apply (verify_chunks_cases _ _ _ _ _ _ Hfair) in Hchunks.
    destruct Hchunks as (n & done & rest & rs & _ & Hperm & HF & _ & Hl & _).
    cbn [results ledgers] in Hl. rewrite Hl.
    constructor; [exact Hempty |].
    apply Forall_forall. intros ledger Hin.
    apply grow_In in Hin as [k [Hk ->]]. cbn [app].
    assert (Hsub : exists entries others,
               Permutation checksums (entries ++ others)
               /\ map (submit cwd directory) entries = firstn k done).
    { assert (Hp : Permutation (map (submit cwd directory) checksums)
                     (firstn k done
                        ++ (skipn k done ++ rest
                              ++ map (submit cwd directory)
                                   (List.concat (skipn n chunks))))).
      { rewrite <- Hcat. rewrite <- (firstn_skipn n chunks) at 1.
        rewrite concat_app, map_app.
        replace (firstn k done
                   ++ skipn k done ++ rest
                   ++ map (submit cwd directory) (List.concat (skipn n chunks)))
          with ((done ++ rest)
                  ++ map (submit cwd directory) (List.concat (skipn n chunks)))
          by (rewrite <- (firstn_skipn k done) at 1;
              now rewrite <- !app_assoc).
        now apply Permutation_app_tail. }
      apply Permutation_sym, Permutation_map_inv in Hp as [l3 [Hl3 Hp3]].
      symmetry in Hl3. apply map_eq_app in Hl3 as (entries & others & -> & He & _).
      exists entries, others. split; [exact Hp3 | exact He]. }
    destruct Hsub as (entries & others & Hp & He).
    assert (HF' : Forall2 (fun entry r =>
                             returns fs read_size (submit cwd directory entry) r)
                          entries (firstn k rs)).
    { apply (Forall2_firstn _ k) in HF. rewrite <- He in HF.
      clear - HF. remember (firstn k rs) as l. clear Heql.
      revert l HF. induction entries as [|x entries IH]; intros l HF;
        inversion HF; subst; constructor; auto. }
    split; [| now exists entries, others].
    rewrite <- (Forall2_length HF').
    apply Permutation_length in Hp. rewrite Hp, length_app. lia.
  - destruct (verify_run_cases _ _ _ _ _ _ _ _ _ _ Hfair Hrun)
      as [(_ & -> & _) | (_ & chunks & _ & _ & Hchunks)].
    { now left. }
    apply (verify_chunks_cases _ _ _ _ _ _ Hfair) in Hchunks.
    destruct Hchunks as (n & done & rest & rs & _ & _ & _ & Hr & Hl & _).
    cbn [results ledgers] in Hr, Hl. rewrite Hr, Hl.
    exact (grow_last [] rs).
  - intros ledger. unfold verify_checksums_multithread. rewrite Hrun.
    destruct oe; intros H; now inversion H.
Qed.

Lemma ledger_within_manifest_witness :
  let checksums := [ ("900150983cd24fb0d6963f7d28e17f72", "./visible.txt");
                     ("0cc175b9c0f1b6a831c399e269772661", "./.hidden/file.txt") ] in
  List.length
    (results (fst (verify_run Example.fs "/" Example.root 4096 true lifo 5
                              checksums)))
  <= List.length checksums.
Proof.
  intros checksums.
  destruct (verify_run Example.fs "/" Example.root 4096 true lifo 5 checksums)
    as [st oe] eqn:E.
  destruct (ledger_within_manifest _ _ _ _ _ _ _ _ _ _ lifo_fair E)
    as (Hall & Hin & _).
  cbn [fst]. rewrite Forall_forall in Hall. apply Hall in Hin.
  exact (proj1 Hin).
Defined.

(** C1 (as amended).  In a verify run without [keep_going], a mismatch,
    once observed, ends the run at once: the mismatching triple is the
    last one in [results] and every triple before it matches, the call
    raises the error of that mismatch, so no ledger is handed back to
    the caller, and no chunk after the one being consumed has been
    submitted.  At that moment [results] holds the results processed so
    far, at least one and at most as many as the manifest has entries. *)
Theorem fail_fast_abort :
  forall fs cwd directory read_size sched max_workers checksums st oe r,
    fair sched ->
    verify_run fs cwd directory read_size false sched max_workers checksums
    = (st, oe) ->
    In r (results st) ->
    matches r = false ->
    (exists earlier,
        results st = earlier ++ [r] /\ forallb matches earlier = true)
    /\ oe = Some (mismatch_error r)
    /\ verify_checksums_multithread fs cwd directory read_size false sched
         max_workers checksums = Raise (mismatch_error r)
    /\ 1 <= List.length (results st) <= List.length checksums
    /\ exists chunks m,
         batch checksums (max_workers * 4) = Ok chunks
         /\ submitted st
            = map fut_path
                (map (submit cwd directory) (List.concat (firstn (S m) chunks)))
         /\ List.length (List.concat (firstn m chunks))
            < List.length (results st).
Proof.
  intros fs cwd directory read_size sched max_workers checksums st oe r
         Hfair Hrun Hin Hr.
  destruct (verify_run_cases _ _ _ _ _ _ _ _ _ _ Hfair Hrun)
    as [(_ & -> & _) | (_ & chunks & Hb & Hcat & Hchunks)]; [destruct Hin |].
  apply (verify_chunks_cases _ _ _ _ _ _ Hfair) in Hchunks.
  destruct Hchunks
    as (n & done & rest & rs & _ & Hperm & HF & Hres & _ & Hsub & Hend & _ & Hsome).
  cbn [results submitted app] in Hres, Hsub. rewrite Hres in *.
  assert (Hall : forallb matches rs = true -> False).
  { intros H. rewrite forallb_forall in H. apply H in Hin. congruence. }
  destruct Hend as [(_ & _ & Hm) | [(_ & _ & _ & _ & _ & _ & Hm) | (_ & earlier & r' & -> & Hm & Hr' & ->)]];
    [destruct (Hall (Hm eq_refl)) .. |].
  assert (r = r').
  { apply in_app_or in Hin as [Hin | [<- | []]]; [| reflexivity].
    rewrite forallb_forall in Hm. apply Hm in Hin. congruence. }
  subst r'.
  split; [now exists earlier |]. split; [reflexivity |].
  split; [unfold verify_checksums_multithread; now rewrite Hrun |].
  split.
  - split; [rewrite length_app; simpl; lia |].
    rewrite <- (Forall2_length HF).
    assert (List.length done <= List.length (done ++ rest))
      by (rewrite length_app; lia).
    apply Permutation_length in Hperm. rewrite length_map in Hperm.
    pose proof (concat_firstn_length n chunks). rewrite Hcat in *. lia.
  - destruct (Hsome _ eq_refl) as (m & -> & _ & Hstrict).
    exists chunks, m. split; [exact Hb |]. split; [exact Hsub |].
    exact (Hstrict r eq_refl).
Qed.

Lemma fail_fast_abort_witness :
  verify_checksums_multithread Example.fs "/" Example.root 4096 false fifo 5
    [ ("900150983cd24fb0d6963f7d28e17f72", "./visible.txt");
      ("00000000000000000000000000000000", "./.hidden/file.txt");
      ("d41d8cd98f00b204e9800998ecf8427e", "./absent.txt") ]
  = Raise (mismatch_error ("/data/.hidden/file.txt",
                           Some "0cc175b9c0f1b6a831c399e269772661",
                           Some "00000000000000000000000000000000")).
Proof.
  destruct (verify_run Example.fs "/" Example.root 4096 false fifo 5
              [ ("900150983cd24fb0d6963f7d28e17f72", "./visible.txt");
                ("00000000000000000000000000000000", "./.hidden/file.txt");
                ("d41d8cd98f00b204e9800998ecf8427e", "./absent.txt") ])
    as [st oe] eqn:E.
  refine (proj1 (proj2 (proj2
            (fail_fast_abort _ _ _ _ _ _ _ _ _ _ fifo_fair E _ _)))).
  - vm_compute in E. inversion E. cbn [results]. right. left. reflexivity.
  - reflexivity.
Defined.

(** C1 (as stated) fails: on a mismatch the call raises, so no ledger
    reaches the caller; and [results], which held one triple at that
    moment, was not shorter than the manifest of one entry. *)
Lemma fail_fast_hands_back_no_ledger :
  let checksums := [ ("00000000000000000000000000000000", "./visible.txt") ] in
  let r := ("/data/visible.txt", Some "900150983cd24fb0d6963f7d28e17f72",
            Some "00000000000000000000000000000000") in
  verify_checksums_multithread Example.fs "/" Example.root 4096 false fifo 5
    checksums = Raise (mismatch_error r)
  /\ results (fst (verify_run Example.fs "/" Example.root 4096 false fifo 5
                              checksums)) = [r]
  /\ List.length checksums = 1.
Proof. vm_compute. repeat split. Qed.

(** ** Generation orchestrator *)

(** C2 (the program departs from it).  For a directory whose listing
    names gone.txt while no such file can be opened (a dangling symbolic
    link, or a file deleted after the listing), the digest is absent and
    the orchestrator still prints a line for the path, the digest
    written as [None]. *)
Theorem vanished_file_gets_a_line :
  calculate_checksums_multithread (Machine (fun _ => None) 65536) "/" "/data"
    4096 "./" fifo 5 true (Dir [] ["gone.txt"])
  = GenState ["None  ./gone.txt"] None.
Proof. vm_compute. reflexivity. Qed.

(** ** Paths made of legal names *)

Lemma all_chars_app p a b :
  Str.all_chars p (a ++ b)%string = Str.all_chars p a && Str.all_chars p b.
Proof.
  induction a as [|x a IH]; simpl; [reflexivity |].
  now rewrite IH, andb_assoc.
Qed.

Lemma legal_name_parts n :
  legal_name n = true ->
  n <> "" /\ n <> "." /\ n <> ".."
  /\ Str.all_chars (fun c => negb (Ascii.eqb c Str.sep)) n = true.
Proof.
  unfold legal_name. intros H.
  apply andb_prop in H as [H H4]. apply andb_prop in H as [H H3].
  apply andb_prop in H as [H1 H2].
  repeat split; try assumption; intros ->; discriminate.
Qed.

Lemma endswith_app b : b <> "" ->
  forall a, Str.endswith "/" (a ++ b)%string = Str.endswith "/" b.
Proof.
  intros Hb. induction a as [|x a IH]; [reflexivity |].
  cbn [append Str.endswith]. rewrite IH.
  destruct (String.eqb "/" (String x (a ++ b))) eqn:E; [| reflexivity].
  apply String.eqb_eq in E. inversion E as [[Hx Hab]].
  destruct a; simpl in Hab; [symmetry in Hab; contradiction | discriminate].
Qed.

Lemma endswith_legal n : legal_name n = true -> Str.endswith "/" n = false.
Proof.
  intros H. apply legal_name_parts in H as (_ & _ & _ & H).
  destruct (Str.endswith "/" n) eqn:E; [| reflexivity].
  apply endswith_sep_inv in E as [r ->].
  rewrite all_chars_app in H. apply andb_prop in H as [_ H]. discriminate.
Qed.

Lemma join_with_snoc cs n :
  cs <> [] ->
  Str.join_with "/" (cs ++ [n]) = (Str.join_with "/" cs ++ "/" ++ n)%string.
Proof.
  induction cs as [|c cs IH]; [contradiction |]. intros _.
  destruct cs as [|c' cs]; [reflexivity |].
  change ((c :: c' :: cs) ++ [n]) with (c :: (c' :: cs) ++ [n]).
  cbn [Str.join_with] in *. cbn [app]. cbn [app] in IH.
  rewrite IH by discriminate. now rewrite !string_app_assoc.
Qed.

Lemma join_with_tail_legal cs c :
  forallb legal_name (cs ++ [c]) = true ->
  Str.join_with "/" (cs ++ [c]) <> ""
  /\ Str.endswith "/" (Str.join_with "/" (cs ++ [c])) = false.
Proof.
  intros H. rewrite forallb_app in H. apply andb_prop in H as [_ H].
  cbn [forallb] in H. rewrite andb_true_r in H.
  pose proof (legal_name_parts _ H) as (Hne & _).
  destruct cs as [|c0 cs].
  - split; [exact Hne | now apply endswith_legal].
  - rewrite join_with_snoc by discriminate. split.
    + destruct (Str.join_with "/" (c0 :: cs)); discriminate.
    + rewrite <- string_app_assoc, endswith_app by exact Hne.
      now apply endswith_legal.
Qed.

Lemma join_glue a n :
  a <> "" -> Str.endswith "/" a = false -> Str.startswith "/" n = false ->
  Path.join a n = (a ++ "/" ++ n)%string.
Proof.
  intros Ha He Hn. unfold Path.join. rewrite Hn, He.
  destruct (String.eqb a "") eqn:E; [apply String.eqb_eq in E; contradiction |].
  reflexivity.
Qed.

Lemma join_render cs n :
  forallb legal_name cs = true -> legal_name n = true ->
  Path.join (render cs) n = render (cs ++ [n]).
Proof.
  intros Hcs Hn. pose proof (legal_name_no_lead _ Hn) as Hlead.
  destruct cs as [|c cs] using rev_ind.
  - unfold Path.join, render. rewrite Hlead. reflexivity.
  - clear IHcs. destruct (join_with_tail_legal _ _ Hcs) as [Hne He].
    unfold render. rewrite join_glue.
    + rewrite (join_with_snoc (cs ++ [c])) by (destruct cs; discriminate).
      now rewrite string_app_assoc.
    + discriminate.
    + rewrite endswith_app by exact Hne. exact He.
    + exact Hlead.
Qed.

Lemma split_on_plain n :
  Str.all_chars (fun c => negb (Ascii.eqb c Str.sep)) n = true ->
  Str.split_on Str.sep n = [n].
Proof.
  induction n as [|x n IH]; [reflexivity |].
  cbn [Str.all_chars Str.split_on]. intros H. apply andb_prop in H as [Hx Hn].
  destruct (Ascii.eqb x Str.sep); [discriminate |]. now rewrite IH.
Qed.

Lemma split_on_join_with cs :
  cs <> [] -> forallb legal_name cs = true ->
  Str.split_on Str.sep (Str.join_with "/" cs) = cs.
Proof.
  induction cs as [|c cs IH]; [contradiction |]. intros _ H.
  cbn [forallb] in H. apply andb_prop in H as [Hc Hcs].
  apply legal_name_parts in Hc as (_ & _ & _ & Hc).
  destruct cs as [|c' cs]; [now apply split_on_plain |].
  change (Str.join_with "/" (c :: c' :: cs))
    with (c ++ String Str.sep (Str.join_with "/" (c' :: cs)))%string.
  rewrite split_on_app_sep, IH by (discriminate || assumption).
  now rewrite split_on_plain.
Qed.

Lemma split_on_render cs :
  forallb legal_name cs = true ->
  Str.split_on Str.sep (render cs)
  = "" :: match cs with [] => [""] | _ :: _ => cs end.
Proof.
  intros H. unfold render.
  change ("/" ++ Str.join_with "/" cs)%string
    with ("" ++ String Str.sep (Str.join_with "/" cs))%string.
  rewrite split_on_app_sep. cbn [Str.split_on app]. f_equal.
  destruct cs as [|c cs]; [reflexivity |].
  now apply split_on_join_with.
Qed.

Lemma legal_not_special c :
  legal_name c = true ->
  String.eqb c "" = false /\ String.eqb c "." = false
  /\ String.eqb c ".." = false.
Proof.
  intros H. apply legal_name_parts in H as (H1 & H2 & H3 & _).
  repeat split; apply String.eqb_neq; assumption.
Qed.

Lemma norm_fold comps : forall acc,
  Forall (fun c => c = "" \/ c = "." \/ legal_name c = true) comps ->
  fold_left (Path.norm_step 1) comps acc = rev (filter legal_name comps) ++ acc.
Proof.
  induction comps as [|c comps IH]; intros acc H; [reflexivity |].
  inversion H as [|? ? Hc Hrest]; subst. cbn [fold_left filter].
  rewrite IH by assumption.
  destruct Hc as [-> | [-> | Hc]]; try reflexivity.
  rewrite Hc. unfold Path.norm_step.
  destruct (legal_not_special _ Hc) as (-> & -> & ->).
  cbn [orb negb rev]. now rewrite <- app_assoc.
Qed.

Lemma normpath_abs X :
  X <> "" -> Path.initial_slashes X = 1 ->
  Forall (fun c => c = "" \/ c = "." \/ legal_name c = true)
         (Str.split_on Str.sep X) ->
  Path.normpath X = render (filter legal_name (Str.split_on Str.sep X)).
Proof.
  intros Hne Hinit Hall. unfold Path.normpath.
  destruct (String.eqb X "") eqn:E; [apply String.eqb_eq in E; contradiction |].
  rewrite Hinit, norm_fold, app_nil_r, rev_involutive by assumption.
  reflexivity.
Qed.

Lemma startswith_app c x :
  c <> "" -> Str.startswith "/" (c ++ x)%string = Str.startswith "/" c.
Proof. destruct c as [|a c]; [contradiction | reflexivity]. Qed.

Lemma join_with_no_lead cs :
  forallb legal_name cs = true ->
  Str.startswith "/" (Str.join_with "/" cs) = false.
Proof.
  destruct cs as [|c cs]; [reflexivity |]. cbn [forallb]. intros H.
  apply andb_prop in H as [Hc _].
  pose proof (legal_name_no_lead _ Hc) as Hl.
  apply legal_name_parts in Hc as (Hne & _).
  destruct cs; [exact Hl |]. cbn [Str.join_with].
  now rewrite startswith_app.
Qed.

Lemma initial_slashes_one q :
  Str.startswith "/" q = false -> Path.initial_slashes ("/" ++ q)%string = 1.
Proof.
  intros H. unfold Path.initial_slashes.
  change (Str.startswith "/" ("/" ++ q)%string) with true.
  change (Str.startswith "//" ("/" ++ q)%string)
    with (Ascii.eqb "/" "/" && Str.startswith "/" q).
  now rewrite H, andb_false_r.
Qed.

Lemma legal_or_blank cs :
  forallb legal_name cs = true ->
  Forall (fun c => c = "" \/ c = "." \/ legal_name c = true) cs.
Proof.
  intros H. apply Forall_forall. intros c Hc.
  rewrite forallb_forall in H. auto.
Qed.

Lemma filter_legal cs :
  forallb legal_name cs = true -> filter legal_name cs = cs.
Proof.
  induction cs as [|c cs IH]; [reflexivity |]. cbn [forallb filter].
  intros H. apply andb_prop in H as [-> H]. now rewrite IH.
Qed.

Lemma normpath_render cs :
  forallb legal_name cs = true -> Path.normpath (render cs) = render cs.
Proof.
  intros H. rewrite normpath_abs.
  - rewrite split_on_render by assumption. cbn [filter].
    change (legal_name "") with false. cbv iota.
    destruct cs as [|c cs]; [reflexivity |]. now rewrite filter_legal.
  - discriminate.
  - apply initial_slashes_one. now apply join_with_no_lead.
  - rewrite split_on_render by assumption. constructor; [now left |].
    destruct cs as [|c cs]; [constructor; [now left | constructor] |].
    now apply legal_or_blank.
Qed.

Lemma abspath_render cwd cs :
  forallb legal_name cs = true -> Path.abspath cwd (render cs) = render cs.
Proof. intros H. unfold Path.abspath. cbn [render]. now apply normpath_render. Qed.

Lemma common_prefix_app cs rest : Path.common_prefix (cs ++ rest) cs = cs.
Proof.
  induction cs as [|c cs IH]; [now destruct rest |].
  cbn [app Path.common_prefix]. now rewrite String.eqb_refl, IH.
Qed.

Lemma common_prefix_app_r cs rest : Path.common_prefix cs (cs ++ rest) = cs.
Proof.
  induction cs as [|c cs IH]; [reflexivity |].
  cbn [app Path.common_prefix]. now rewrite String.eqb_refl, IH.
Qed.

Lemma components_render (keep : string -> bool) cs :
  keep "" = false ->
  forallb legal_name cs = true ->
  (forall c, legal_name c = true -> keep c = true) ->
  filter keep (Str.split_on Str.sep (render cs)) = cs.
Proof.
  intros H0 Hcs Hk. rewrite split_on_render by assumption.
  cbn [filter]. rewrite H0.
  destruct cs as [|c cs]; [cbn [filter]; now rewrite H0 |].
  clear H0. induction (c :: cs) as [|x l IH]; [reflexivity |].
  cbn [forallb filter] in *. apply andb_prop in Hcs as [Hx Hl].
  now rewrite (Hk _ Hx), IH.
Qed.

Lemma commonpath_render cs rest :
  forallb legal_name (cs ++ rest) = true ->
  Path.commonpath (render (cs ++ rest)) (render cs) = Ok (render cs).
Proof.
  intros H. unfold Path.commonpath.
  change (Str.startswith "/" (render (cs ++ rest))) with true.
  change (Str.startswith "/" (render cs)) with true. cbn [Bool.eqb negb].
  assert (Hcs : forallb legal_name cs = true)
    by (rewrite forallb_app in H; now apply andb_prop in H).
  assert (Hreal : forall c, legal_name c = true ->
            negb (String.eqb c "") && negb (String.eqb c ".") = true).
  { intros c Hc. now destruct (legal_not_special _ Hc) as (-> & -> & _). }
  rewrite !components_render by (assumption || reflexivity).
  now rewrite common_prefix_app.
Qed.

Lemma join_all_legal : forall cs pre,
  pre <> [] -> forallb legal_name (pre ++ cs) = true ->
  Path.join_all (Str.join_with "/" pre) cs = Str.join_with "/" (pre ++ cs).
Proof.
  unfold Path.join_all.
  induction cs as [|n cs IH]; intros pre Hpre H; [now rewrite app_nil_r |].
  cbn [fold_left].
  assert (Hpn : forallb legal_name (pre ++ [n]) = true).
  { rewrite forallb_app in *. apply andb_prop in H as [Hp Hn].
    cbn [forallb] in *. apply andb_prop in Hn as [Hn _].
    now rewrite Hp, Hn. }
  assert (Hp : forallb legal_name pre = true)
    by (rewrite forallb_app in Hpn; now apply andb_prop in Hpn).
  assert (Hn : legal_name n = true).
  { rewrite forallb_app in Hpn. apply andb_prop in Hpn as [_ Hn].
    cbn [forallb] in Hn. now rewrite andb_true_r in Hn. }
  destruct (exists_last Hpre) as (pre' & c & ->).
  destruct (join_with_tail_legal _ _ Hp) as [Hne He].
  rewrite join_glue by (assumption || now apply legal_name_no_lead).
  rewrite <- join_with_snoc by (destruct pre'; discriminate).
  rewrite IH.
  - now rewrite <- app_assoc.
  - destruct pre'; discriminate.
  - now rewrite <- app_assoc.
Qed.

Lemma relpath_render cwd cs rest :
  rest <> [] -> forallb legal_name (cs ++ rest) = true ->
  Path.relpath cwd (render (cs ++ rest)) (render cs)
  = Ok (Str.join_with "/" rest).
Proof.
  intros Hrest H. unfold Path.relpath.
  change (String.eqb (render (cs ++ rest)) "") with false. cbv iota.
  assert (Hcs : forallb legal_name cs = true)
    by (rewrite forallb_app in H; now apply andb_prop in H).
  assert (Hr : forallb legal_name rest = true)
    by (rewrite forallb_app in H; now apply andb_prop in H).
  rewrite !abspath_render by assumption.
  assert (Hne : forall c, legal_name c = true -> negb (String.eqb c "") = true).
  { intros c Hc. now destruct (legal_not_special _ Hc) as (-> & _). }
  rewrite !components_render by (assumption || reflexivity).
  rewrite common_prefix_app_r, Nat.sub_diag. cbn [repeat app].
  rewrite skipn_app, skipn_all, Nat.sub_diag. cbn [skipn app].
  destruct rest as [|c rest]; [contradiction |].
  f_equal. apply (join_all_legal rest [c]); [discriminate | exact Hr].
Qed.

(** The path the verifier builds for a manifest entry is the path the
    generator hashed. *)
Lemma abspath_join_back cwd cs rest dotslash :
  dotslash = "./" \/ dotslash = "" ->
  rest <> [] -> forallb legal_name (cs ++ rest) = true ->
  Path.abspath cwd
    (Path.join (render cs) (dotslash ++ Str.join_with "/" rest)%string)
  = render (cs ++ rest).
Proof.
  intros Hdot Hrest H.
  assert (Hcs : forallb legal_name cs = true)
    by (rewrite forallb_app in H; now apply andb_prop in H).
  assert (Hr : forallb legal_name rest = true)
    by (rewrite forallb_app in H; now apply andb_prop in H).
  set (q := (dotslash ++ Str.join_with "/" rest)%string).
  assert (Hq : Str.startswith "/" q = false).
  { unfold q. destruct Hdot as [-> | ->]; [reflexivity |].
    now apply join_with_no_lead. }
  assert (Hsq : Str.split_on Str.sep q
                = (if String.eqb dotslash "" then [] else ["."]) ++ rest).
  { unfold q. destruct Hdot as [-> | ->].
    - change ("./" ++ Str.join_with "/" rest)%string
        with ("." ++ String Str.sep (Str.join_with "/" rest))%string.
      rewrite split_on_app_sep, split_on_join_with by assumption. reflexivity.
    - now apply split_on_join_with. }
  assert (HX : exists Y,
             Path.join (render cs) q = ("/" ++ Y)%string
             /\ Str.startswith "/" Y = false
             /\ Str.split_on Str.sep ("/" ++ Y)%string
                = "" :: cs ++ Str.split_on Str.sep q).
  { destruct cs as [|c cs] using rev_ind.
    - exists q. split; [| split; [exact Hq |]].
      + unfold Path.join. rewrite Hq. reflexivity.
      + change ("/" ++ q)%string with ("" ++ String Str.sep q)%string.
        now rewrite split_on_app_sep.
    - clear IHcs. destruct (join_with_tail_legal _ _ Hcs) as [Hne He].
      exists (Str.join_with "/" (cs ++ [c]) ++ "/" ++ q)%string.
      split; [| split].
      + unfold render. rewrite join_glue; [now rewrite string_app_assoc | discriminate | | exact Hq].
        now rewrite endswith_app.
      + rewrite startswith_app by exact Hne. now apply join_with_no_lead.
      + change ("/" ++ Str.join_with "/" (cs ++ [c]) ++ "/" ++ q)%string
          with ("" ++ String Str.sep
                  (Str.join_with "/" (cs ++ [c]) ++ String Str.sep q))%string.
        rewrite !split_on_app_sep, split_on_join_with;
          [reflexivity | destruct cs; discriminate | exact Hcs]. }
  destruct HX as (Y & -> & HY & Hsplit).
  unfold Path.abspath. change (Str.startswith "/" ("/" ++ Y)%string) with true.
  cbv iota. rewrite normpath_abs.
  - rewrite Hsplit, Hsq. cbn [filter]. change (legal_name "") with false.
    cbv iota. rewrite !filter_app, (filter_legal cs), (filter_legal rest)
      by assumption.
    destruct (String.eqb dotslash ""); reflexivity.
  - discriminate.
  - now apply initial_slashes_one.
  - rewrite Hsplit, Hsq. constructor; [now left |].
    apply Forall_app; split; [now apply legal_or_blank |].
    apply Forall_app; split; [| now apply legal_or_blank].
    destruct (String.eqb dotslash ""); [constructor |].
    constructor; [right; now left | constructor].
Qed.

Lemma plain_legal n : plain_name n = true -> legal_name n = true.
Proof. unfold plain_name. intros H. now apply andb_prop in H. Qed.

Lemma plain_all_legal ns :
  forallb plain_name ns = true -> forallb legal_name ns = true.
Proof.
  induction ns as [|n ns IH]; [reflexivity |]. cbn [forallb]. intros H.
  apply andb_prop in H as [Hn Hns]. now rewrite (plain_legal _ Hn), IH.
Qed.

Lemma os_walk_rendered keep cs : forallb legal_name cs = true ->
  forall t ds,
    forallb plain_name ds = true -> plain_tree t = true ->
    Forall (fun e : string * list string * list string =>
              let '(root, _, files) := e in
              exists ds',
                forallb plain_name ds' = true
                /\ root = render (cs ++ ds')
                /\ forallb plain_name files = true)
           (os_walk keep (render (cs ++ ds)) t).
Proof.
  intros Hcs. induction t as [subdirs files IH] using tree_ind.
  intros ds Hds Ht. cbn [os_walk plain_tree] in *.
  apply andb_prop in Ht as [Hf Hd].
  constructor; [now exists ds |].
  induction subdirs as [|[d sub] subdirs IHs]; [constructor |].
  apply andb_prop in Hd as [Hd Hrest]. apply andb_prop in Hd as [Hd Hsub].
  inversion IH as [|? ? IHsub IHrest]; subst.
  apply Forall_app; split; [| now apply IHs].
  destruct (keep d); [| constructor].
  rewrite join_render.
  - rewrite <- app_assoc. apply IHsub; [| exact Hsub].
    rewrite forallb_app. cbn [forallb]. now rewrite Hds, Hd.
  - rewrite forallb_app, Hcs. now apply plain_all_legal.
  - now apply plain_legal.
Qed.

Lemma discovered_rendered cs skip_hidden t p :
  forallb legal_name cs = true -> plain_tree t = true ->
  In p (discovered (render cs) skip_hidden t) ->
  exists rest,
    rest <> [] /\ forallb plain_name rest = true /\ p = render (cs ++ rest).
Proof.
  intros Hcs Ht Hin. unfold discovered in Hin.
  apply in_flat_map in Hin as [[[root dirs] files] [He Hin]].
  pose proof (os_walk_rendered (keep_dir skip_hidden) cs Hcs t [] eq_refl Ht) as H.
  rewrite app_nil_r in H. rewrite Forall_forall in H.
  apply H in He as (ds & Hds & -> & Hfiles).
  apply filter_In in Hin as [Hin _]. apply in_map_iff in Hin as [file [<- Hfile]].
  rewrite forallb_forall in Hfiles. specialize (Hfiles _ Hfile).
  exists (ds ++ [file]). split; [destruct ds; discriminate |]. split.
  - rewrite forallb_app. cbn [forallb]. now rewrite Hds, Hfiles.
  - rewrite join_render, <- app_assoc; [reflexivity | | now apply plain_legal].
    rewrite forallb_app, Hcs. now apply plain_all_legal.
Qed.

(** ** Hasher and path resolution *)







Lemma nonempty_path_eqb a b : a <> "" -> String.eqb (a ++ b) "" = false.
Proof. destruct a; [contradiction | reflexivity]. Qed.





(** ** Digests and manifest lines *)

Lemma hex_digit_is_hex n : is_hex (MD5.hex_digit n) = true.
Proof.
  unfold MD5.hex_digit. generalize (Z.to_nat (Z.land n 15)). intros k.
  do 15 (destruct k as [|k]; [reflexivity |]). reflexivity.
Qed.

Lemma hex_all_hex bs : Str.all_chars is_hex (MD5.hex bs) = true.
Proof.
  induction bs as [|b bs IH]; [reflexivity |].
  cbn [MD5.hex Str.all_chars]. now rewrite !hex_digit_is_hex, IH.
Qed.

Lemma hexdigest_shape m :
  exists c rest,
    MD5.hexdigest m = String c rest
    /\ Str.all_chars is_hex (String c rest) = true.
Proof.
  unfold MD5.hexdigest. pose proof (hex_all_hex (MD5.digest m)) as H.
  unfold MD5.digest in *.
  destruct (MD5.blocks _ MD5.init _) as [a b c d].
  cbn [MD5.le_bytes seq map app MD5.hex] in *. eauto.
Qed.

Lemma is_hex_plain c :
  is_hex c = true ->
  Str.isspace c = false /\ Ascii.eqb c Str.hash_mark = false.
Proof.
  unfold is_hex. cbn [list_ascii_of_string existsb]. intros H.
  repeat (apply orb_prop in H as [H | H];
          [apply Ascii.eqb_eq in H; subst; split; reflexivity |]).
  discriminate.
Qed.

Lemma all_hex_no_space s :
  Str.all_chars is_hex s = true ->
  Str.all_chars (fun c => negb (Str.isspace c)) s = true.
Proof.
  induction s as [|c s IH]; [reflexivity |]. cbn [Str.all_chars].
  intros H. apply andb_prop in H as [Hc Hs].
  destruct (is_hex_plain _ Hc) as [-> _]. now rewrite IH.
Qed.

Lemma hexdigest_token m :
  token (MD5.hexdigest m) = true
  /\ Str.startswith "#" (MD5.hexdigest m) = false.
Proof.
  destruct (hexdigest_shape m) as (c & rest & -> & H). split.
  - unfold token. now rewrite all_hex_no_space.
  - cbn [Str.all_chars] in H. apply andb_prop in H as [Hc _].
    destruct (is_hex_plain _ Hc) as [_ Hh].
    cbn [Str.startswith]. rewrite Ascii.eqb_sym. unfold Str.hash_mark in Hh.
    now rewrite Hh.
Qed.

Lemma split_ws_space c rest :
  Str.isspace c = true -> Str.split_ws (String c rest) = Str.split_ws rest.
Proof. intros H. cbn [Str.split_ws]. now rewrite H. Qed.

Lemma token_parts t :
  token t = true ->
  exists x t', t = String x t' /\ Str.isspace x = false
               /\ Str.all_chars (fun c => negb (Str.isspace c)) t' = true.
Proof.
  unfold token. destruct t as [|x t']; [discriminate |].
  cbn [Str.all_chars]. intros H. apply andb_prop in H as [_ H].
  apply andb_prop in H as [Hx Ht]. exists x, t'.
  repeat split; [| exact Ht]. now destruct (Str.isspace x).
Qed.

Lemma split_ws_token : forall t c rest,
  token t = true -> Str.isspace c = true ->
  Str.split_ws (t ++ String c rest)%string = t :: Str.split_ws rest.
Proof.
  induction t as [|x t IH]; intros c rest Ht Hc; [discriminate |].
  destruct (token_parts _ Ht) as (x' & t' & E & Hx & Hrest).
  inversion E; subst x' t'. clear E.
  destruct t as [|y t].
  - cbn [append Str.split_ws]. rewrite Hx, Hc. reflexivity.
  - assert (Hy : token (String y t) = true).
    { unfold token. now rewrite Hrest. }
    specialize (IH c rest Hy Hc).
    change (String x (String y t) ++ String c rest)%string
      with (String x (String y t ++ String c rest))%string.
    cbn [Str.split_ws]. rewrite Hx.
    change (String y t ++ String c rest)%string
      with (String y (t ++ String c rest))%string in *.
    cbn [Str.all_chars] in Hrest. apply andb_prop in Hrest as [Hy' _].
    destruct (Str.isspace y); [discriminate |].
    now rewrite IH.
Qed.

(** A line as the generator prints it parses back into its two fields. *)
Lemma parse_line_printed d q :
  token d = true -> token q = true ->
  parse_line ((d ++ "  " ++ q) ++ String Str.LF "")%string = Ok (d, q).
Proof.
  intros Hd Hq. unfold parse_line.
  rewrite !string_app_assoc.
  change ("  " ++ q ++ String Str.LF "")%string
    with (String " " (String " " (q ++ String Str.LF ""))).
  rewrite split_ws_token by (assumption || reflexivity).
  rewrite split_ws_space by reflexivity.
  rewrite split_ws_token by (assumption || reflexivity).
  reflexivity.
Qed.

Lemma universal_newlines_id s :
  Str.all_chars (fun c => negb (Ascii.eqb c Str.CR)) s = true ->
  Str.universal_newlines s = s.
Proof.
  induction s as [|c s IH]; [reflexivity |]. cbn [Str.all_chars].
  intros H. apply andb_prop in H as [Hc Hs]. cbn [Str.universal_newlines].
  destruct (Ascii.eqb c Str.CR); [discriminate |]. now rewrite IH.
Qed.

Lemma keepends_line : forall l rest,
  Str.all_chars (fun c => negb (Ascii.eqb c Str.LF)) l = true ->
  Str.keepends (l ++ String Str.LF rest)%string
  = (l ++ String Str.LF "")%string :: Str.keepends rest.
Proof.
  induction l as [|c l IH]; intros rest H.
  - cbn [append Str.keepends]. now rewrite Ascii.eqb_refl.
  - cbn [Str.all_chars] in H. apply andb_prop in H as [Hc Hl].
    cbn [append Str.keepends]. destruct (Ascii.eqb c Str.LF); [discriminate |].
    now rewrite IH.
Qed.

Lemma all_chars_weaken (p q : ascii -> bool) s :
  (forall c, p c = true -> q c = true) ->
  Str.all_chars p s = true -> Str.all_chars q s = true.
Proof.
  intros Hpq. induction s as [|c s IH]; [reflexivity |]. cbn [Str.all_chars].
  intros H. apply andb_prop in H as [Hc Hs]. now rewrite (Hpq _ Hc), IH.
Qed.

Lemma readlines_file_text lines :
  Forall (fun l => Str.all_chars inline_char l = true) lines ->
  Str.readlines (file_text lines)
  = map (fun l => (l ++ String Str.LF "")%string) lines.
Proof.
  intros H. unfold Str.readlines.
  assert (Hcr : Str.all_chars (fun c => negb (Ascii.eqb c Str.CR))
                              (file_text lines) = true).
  { induction H as [|l lines Hl _ IH]; [reflexivity |].
    cbn [file_text]. rewrite all_chars_app. cbn [Str.all_chars].
    rewrite IH. change (negb (Ascii.eqb Str.LF Str.CR)) with true.
    rewrite ?andb_true_r. revert Hl. apply all_chars_weaken.
    unfold inline_char. intros c Hc. now apply andb_prop in Hc. }
  rewrite universal_newlines_id by exact Hcr. clear Hcr.
  induction H as [|l lines Hl _ IH]; [reflexivity |].
  cbn [file_text map]. rewrite keepends_line, IH; [reflexivity |].
  revert Hl. apply all_chars_weaken.
  unfold inline_char. intros c Hc. now apply andb_prop in Hc.
Qed.

Lemma strip_comments_none lines :
  Forall (fun l => Str.startswith "#" l = false) lines ->
  strip_comments lines = lines.
Proof.
  intros H. rewrite strip_comments_apart.
  - induction H as [|l lines Hl _ IH]; [reflexivity |].
    cbn [filter]. now rewrite Hl, IH.
  - induction H as [|l lines Hl Hls IH]; [reflexivity |].
    destruct lines as [|l' lines]; [reflexivity |].
    change (comments_apart (l :: l' :: lines))
      with (negb (Str.startswith "#" l && Str.startswith "#" l')
            && comments_apart (l' :: lines)).
    now rewrite Hl, IH.
Qed.

(** ** Round trip *)

Lemma Forall2_exists {A B} (R : A -> B -> Prop) (l : list A) :
  (forall a, In a l -> exists b, R a b) -> exists bs, Forall2 R l bs.
Proof.
  induction l as [|a l IH]; intros H; [exists []; constructor |].
  destruct (H a (or_introl eq_refl)) as [b Hb].
  destruct IH as [bs Hbs]; [intros a' Ha'; apply H; now right |].
  exists (b :: bs). now constructor.
Qed.

Section RoundTripFacts.
Variable fs : filesystem.
Variable cwd : string.
Variable directory : string.
Variable read_size : Z.

Lemma collect_ok dotslash : forall completed lines out,
  Forall2 (fun p l => report fs cwd directory read_size dotslash p = Ok l)
          completed lines ->
  collect fs cwd directory read_size dotslash completed out
  = GenState (out ++ lines) None.
Proof.
  induction completed as [|p completed IH]; intros lines out H;
    inversion H as [|? l ? lines' Hp Hrest]; subst.
  - now rewrite app_nil_r.
  - cbn [collect]. rewrite Hp, IH with (lines := lines') by assumption.
    now rewrite <- app_assoc.
Qed.

Lemma gen_batches_ok dotslash sched : fair sched ->
  forall batches i out,
    (forall p, In p (List.concat batches) -> is_checksum_name p = false ->
               exists l, report fs cwd directory read_size dotslash p = Ok l) ->
    exists order lines,
      Permutation order
        (filter (fun p => negb (is_checksum_name p)) (List.concat batches))
      /\ Forall2 (fun p l => report fs cwd directory read_size dotslash p = Ok l)
                 order lines
      /\ gen_batches fs cwd directory read_size dotslash sched i batches out
         = GenState (out ++ lines) None.
Proof.
  intros Hfair. induction batches as [|b batches IH]; intros i out H.
  - exists [], []. cbn. rewrite app_nil_r. repeat split; constructor.
  - cbn [gen_batches].
    set (futures := filter (fun f => negb (is_checksum_name f)) b).
    assert (Hord : Permutation (sched i string futures) futures) by apply Hfair.
    destruct (Forall2_exists
                (fun p l => report fs cwd directory read_size dotslash p = Ok l)
                (sched i string futures)) as [lines1 H1].
    { intros p Hp. apply (Permutation_in _ Hord) in Hp.
      apply filter_In in Hp as [Hp Hck]. apply H.
      - cbn [List.concat]. apply in_or_app. now left.
      - now destruct (is_checksum_name p). }
    rewrite (collect_ok dotslash _ _ out H1). cbn [gen_raised printed].
    destruct (IH (S i) (out ++ lines1)) as (order & lines & Hperm & HF & E).
    { intros p Hp. apply H. cbn [List.concat]. apply in_or_app. now right. }
    exists (sched i string futures ++ order), (lines1 ++ lines).
    split; [| split].
    + cbn [List.concat]. rewrite filter_app. now apply Permutation_app.
    + now apply Forall2_app.
    + now rewrite E, app_assoc.
Qed.

Lemma verify_all_match keep_going sched max_workers checksums :
  fair sched -> (0 < max_workers)%Z ->
  (forall entry, In entry checksums ->
     exists r, returns fs read_size (submit cwd directory entry) r
               /\ matches r = true) ->
  exists st done,
    verify_run fs cwd directory read_size keep_going sched max_workers
               checksums = (st, None)
    /\ forallb matches (results st) = true
    /\ Permutation (map (submit cwd directory) checksums) done
    /\ Forall2 (returns fs read_size) done (results st).
Proof.
  intros Hfair Hpos Hgood.
  destruct (verify_run fs cwd directory read_size keep_going sched
              max_workers checksums) as [st oe] eqn:Hrun.
  destruct (verify_run_cases _ _ _ _ _ _ _ _ _ _ Hfair Hrun)
    as [(Hneg & _) | (_ & chunks & _ & Hcat & Hchunks)]; [lia |].
  apply (verify_chunks_cases _ _ _ _ _ _ Hfair) in Hchunks.
  destruct Hchunks
    as (n & done & rest & rs & _ & Hperm & HF & Hres & _ & _ & Hend & Hnone & _).
  cbn [results app] in Hres.
  assert (Hin : forall f, In f (done ++ rest) ->
            exists r, returns fs read_size f r /\ matches r = true).
  { intros f Hf. apply Permutation_sym in Hperm.
    apply (Permutation_in _ Hperm) in Hf.
    apply in_map_iff in Hf as [entry [<- He]]. apply Hgood.
    rewrite <- Hcat. rewrite <- (firstn_skipn n chunks), concat_app.
    apply in_or_app. now left. }
  assert (Hrs : forallb matches rs = true).
  { apply forallb_forall. intros r Hr.
    assert (Hd : forall f, In f done ->
              exists r, returns fs read_size f r /\ matches r = true)
      by (intros f Hf; apply Hin, in_or_app; now left).
    clear - HF Hr Hd. induction HF as [|f r' done rs Hfr HF IH]; [destruct Hr |].
    destruct Hr as [-> | Hr].
    - destruct (Hd f (or_introl eq_refl)) as [r0 [H0 Hm]].
      unfold returns in *. congruence.
    - apply IH; [exact Hr |]. intros f' Hf'. apply Hd. now right. }
  destruct Hend as [(-> & -> & _) | [(f & e & rest' & -> & Hc & _) | (_ & earlier & r & -> & _ & Hr & _)]].
  - exists st, done. rewrite app_nil_r in Hperm. rewrite Hres.
    specialize (Hnone eq_refl). subst n. rewrite firstn_all in Hperm.
    rewrite Hcat in Hperm. repeat split; assumption.
  - destruct (Hin f) as [r [Hr _]]; [apply in_or_app; right; now left |].
    unfold returns in Hr. congruence.
  - rewrite forallb_app in Hrs. apply andb_prop in Hrs as [_ Hrs].
    cbn [forallb] in Hrs. rewrite Hr in Hrs. discriminate.
Qed.

End RoundTripFacts.

Lemma nonspace_inline c : Str.isspace c = false -> inline_char c = true.
Proof.
  intros H. unfold inline_char.
  destruct (Ascii.eqb c Str.LF) eqn:E1;
    [apply Ascii.eqb_eq in E1; subst; discriminate |].
  destruct (Ascii.eqb c Str.CR) eqn:E2;
    [apply Ascii.eqb_eq in E2; subst; discriminate |].
  reflexivity.
Qed.

Lemma token_inline t : token t = true -> Str.all_chars inline_char t = true.
Proof.
  unfold token. intros H. apply andb_prop in H as [_ H]. revert H.
  apply all_chars_weaken. intros c Hc. apply nonspace_inline.
  now destruct (Str.isspace c).
Qed.

Lemma join_with_plain rest :
  rest <> [] -> forallb plain_name rest = true ->
  token (Str.join_with "/" rest) = true.
Proof.
  intros Hne H. unfold token. apply andb_true_intro. split.
  - destruct rest as [|c rest]; [contradiction |].
    cbn [forallb] in H. apply andb_prop in H as [Hc _].
    apply plain_legal, legal_name_parts in Hc as (Hc & _).
    destruct rest; cbn [Str.join_with]; destruct c; try contradiction;
      reflexivity.
  - clear Hne. induction rest as [|c rest IH]; [reflexivity |].
    cbn [forallb] in H. apply andb_prop in H as [Hc Hrest].
    unfold plain_name in Hc. apply andb_prop in Hc as [_ Hc].
    destruct rest as [|c' rest]; [exact Hc |].
    change (Str.join_with "/" (c :: c' :: rest))
      with (c ++ "/" ++ Str.join_with "/" (c' :: rest))%string.
    rewrite !all_chars_app, Hc, IH by assumption. reflexivity.
Qed.

Lemma token_prefixed dotslash q :
  dotslash = "./" \/ dotslash = "" ->
  token q = true -> token (dotslash ++ q)%string = true.
Proof.
  intros [-> | ->] H; [| exact H]. unfold token in *.
  apply andb_prop in H as [_ H]. cbn [append Str.all_chars].
  now rewrite H.
Qed.

Lemma returns_path fs read_size f r :
  returns fs read_size f r -> fst (fst r) = fut_path f.
Proof.
  unfold returns, calculate_file_checksum.
  destruct (fs (fut_path f)) as [[content|]|]; [| discriminate |].
  - destruct (hash_stream (buffer_max fs) read_size content); cbn [bind];
      intros H; inversion H; reflexivity.
  - intros H; inversion H; reflexivity.
Qed.

(** What the generator prints for a readable file. *)
Lemma report_line fs cwd cs rest dotslash read_size content :
  rest <> [] -> forallb legal_name (cs ++ rest) = true ->
  granted fs read_size ->
  fs (render (cs ++ rest)) = Some (Regular content) ->
  report fs cwd (render cs) read_size dotslash (render (cs ++ rest))
  = Ok (format_line (Some (MD5.hexdigest content)) dotslash
                    (Str.join_with "/" rest)).
Proof.
  intros Hne Hall Hrs Hfs.
  unfold report. rewrite (task_granted _ _ _ _ _ Hrs Hfs). cbn [bind].
  rewrite commonpath_render by assumption. cbn [bind].
  rewrite relpath_render by assumption. cbn [bind].
  reflexivity.
Qed.

(** It is the line of a sound entry when the names hold no whitespace. *)
Lemma report_sound fs cwd cs rest dotslash rs_gen rs_ver content :
  forallb legal_name cs = true ->
  rest <> [] -> forallb plain_name rest = true ->
  dotslash = "./" \/ dotslash = "" ->
  granted fs rs_gen -> granted fs rs_ver ->
  fs (render (cs ++ rest)) = Some (Regular content) ->
  exists e,
    report fs cwd (render cs) rs_gen dotslash (render (cs ++ rest))
    = Ok (entry_line e)
    /\ sound_entry fs cwd (render cs) rs_ver (render (cs ++ rest)) e.
Proof.
  intros Hcs Hne Hrest Hdot Hg Hv Hfs.
  assert (Hall : forallb legal_name (cs ++ rest) = true)
    by (rewrite forallb_app, Hcs; now apply plain_all_legal).
  exists (MD5.hexdigest content, (dotslash ++ Str.join_with "/" rest)%string).
  destruct (hexdigest_token content) as [Htok Hhash].
  assert (Hback : Path.abspath cwd
            (Path.join (render cs) (dotslash ++ Str.join_with "/" rest)%string)
          = render (cs ++ rest)) by now apply abspath_join_back.
  split.
  - now apply report_line.
  - unfold sound_entry. cbn [fst snd submit fut_path].
    split; [exact Htok |].
    split; [apply token_prefixed; [exact Hdot | now apply join_with_plain] |].
    split; [exact Hhash |]. split; [exact Hback |].
    unfold returns. cbn [submit fut_path fut_expected]. rewrite Hback.
    exact (task_granted _ _ _ _ _ Hv Hfs).
Qed.

Lemma startswith_hash_app d x :
  d <> "" -> Str.startswith "#" (d ++ x)%string = Str.startswith "#" d.
Proof. destruct d as [|a d]; [contradiction | reflexivity]. Qed.

Lemma token_nonempty t : token t = true -> t <> "".
Proof. intros H ->. discriminate. Qed.

(** A manifest of sound lines reads back as its entries. *)
Lemma read_back checksums :
  Forall (fun e : string * string =>
            token (fst e) = true /\ token (snd e) = true
            /\ Str.startswith "#" (fst e) = false) checksums ->
  read_checksum_file (file_text (map entry_line checksums)) = Ok checksums.
Proof.
  intros H. unfold read_checksum_file, parse_lines.
  rewrite readlines_file_text.
  - rewrite strip_comments_none.
    + induction H as [|e checksums He _ IH]; [reflexivity |].
      destruct e as [d q]. destruct He as (Hd & Hq & _). cbn [fst snd] in *.
      cbn [map mapM]. unfold entry_line at 1. cbn [fst snd].
      rewrite parse_line_printed by assumption. cbn [bind].
      rewrite IH. reflexivity.
    + rewrite map_map. apply Forall_map.
      eapply Forall_impl; [| exact H]. intros [d q] (Hd & _ & Hh).
      unfold entry_line. cbn [fst snd] in *.
      rewrite !string_app_assoc, startswith_hash_app; [exact Hh |].
      now apply token_nonempty.
  - apply Forall_map. eapply Forall_impl; [| exact H].
    intros [d q] (Hd & Hq & _). unfold entry_line. cbn [fst snd] in *.
    rewrite !all_chars_app, (token_inline _ Hd), (token_inline _ Hq).
    reflexivity.
Qed.

Lemma option_eqb_sym a b : option_eqb a b = option_eqb b a.
Proof.
  destruct a, b; cbn [option_eqb]; try reflexivity. apply String.eqb_sym.
Qed.

(** C6 (as amended).  Take a directory given by an absolute, normalized
    path, all of whose entries have names without whitespace, and whose
    files to be hashed can all be read; generate its manifest with a
    positive, granted read size; leave the files as they are and verify
    the manifest against the directory, again with a positive, granted
    read size.  Then the generation runs to the end, the manifest
    parses into one entry for each line, the verifier hashes again
    exactly the files the manifest lists, and every comparison of
    computed against recorded digest yields OK: the ledger is returned,
    and no mismatch is reported. *)
Theorem manifest_round_trip :
  forall fs cwd root_comps t dotslash skip_hidden keep_going
         read_size_gen read_size_ver workers_gen workers_ver
         sched_gen sched_ver,
    fair sched_gen -> fair sched_ver ->
    forallb legal_name root_comps = true ->
    plain_tree t = true ->
    dotslash = "./" \/ dotslash = "" ->
    (0 < workers_gen)%Z -> (0 < workers_ver)%Z ->
    granted fs read_size_gen -> granted fs read_size_ver ->
    (forall p,
        In p (discovered (render root_comps) skip_hidden t) ->
        is_checksum_name p = false ->
        exists content, fs p = Some (Regular content)) ->
    let directory := render root_comps in
    let g := calculate_checksums_multithread fs cwd directory read_size_gen
               dotslash sched_gen workers_gen skip_hidden t in
    gen_raised g = None
    /\ exists checksums ledger,
         read_checksum_file (file_text (printed g)) = Ok checksums
         /\ List.length checksums = List.length (printed g)
         /\ verify_checksums_multithread fs cwd directory read_size_ver
              keep_going sched_ver workers_ver checksums = Ok ledger
         /\ forallb matches ledger = true
         /\ Permutation (map (fun r : triple => fst (fst r)) ledger)
              (filter (fun p => negb (is_checksum_name p))
                      (discovered directory skip_hidden t))
         /\ fst (main_verify fs cwd directory read_size_ver keep_going
                   sched_ver workers_ver (file_text (printed g)))
            = Ok false.
Proof.
  intros fs cwd root_comps t dotslash skip_hidden keep_going
         read_size_gen read_size_ver workers_gen workers_ver
         sched_gen sched_ver
         Hfg Hfv Hroot Ht Hdot Hwg Hwv Hrg Hrv Hread directory g.
  (* every file to be hashed is printed as the line of a sound entry *)
  assert (Hsound : forall p,
             In p (discovered directory skip_hidden t) ->
             is_checksum_name p = false ->
             exists e,
               report fs cwd directory read_size_gen dotslash p
               = Ok (entry_line e)
               /\ sound_entry fs cwd directory read_size_ver p e).
  { intros p Hp Hck. destruct (Hread p Hp Hck) as [content Hfs].
    destruct (discovered_rendered _ _ _ _ Hroot Ht Hp) as (rest & Hne & Hrest & ->).
    now apply report_sound with (content := content). }
  (* the generation run *)
  destruct (gen_batches_ok fs cwd directory read_size_gen dotslash sched_gen Hfg
              (batch_os_walk directory (workers_gen * 20) skip_hidden t) 0 [])
    as (order & lines & Hperm & HF & Hgen).
  { intros p Hp Hck. rewrite concat_batch_os_walk in Hp.
    destruct (Hsound p Hp Hck) as (e & He & _). eauto. }
  rewrite concat_batch_os_walk in Hperm. cbn [app] in Hgen.
  assert (Hg : g = GenState lines None).
  { unfold g, calculate_checksums_multithread, executor.
    destruct (workers_gen <=? 0)%Z eqn:E; [apply Z.leb_le in E; lia |].
    exact Hgen. }
  rewrite Hg. cbn [gen_raised printed]. split; [reflexivity |].
  (* the entries behind the lines *)
  assert (Hentries : exists checksums,
             lines = map entry_line checksums
             /\ Forall2 (sound_entry fs cwd directory read_size_ver)
                        order checksums).
  { assert (Hin : forall p, In p order ->
               In p (discovered directory skip_hidden t)
               /\ is_checksum_name p = false).
    { intros p Hp. apply (Permutation_in _ Hperm) in Hp.
      apply filter_In in Hp as [Hp Hck]. split; [exact Hp |].
      now destruct (is_checksum_name p). }
    clear - HF Hin Hsound.
    induction HF as [|p l order lines Hpl HF IH].
    - exists []. split; constructor.
    - destruct IH as (checksums & -> & Hs); [intros; apply Hin; now right |].
      destruct (Hin p (or_introl eq_refl)) as [Hp Hck].
      destruct (Hsound p Hp Hck) as (e & He & Hse).
      exists (e :: checksums). split; [| now constructor].
      cbn [map]. f_equal. congruence. }
  destruct Hentries as (checksums & -> & Hs).
  assert (Hfields : Forall (fun e : string * string =>
                              token (fst e) = true /\ token (snd e) = true
                              /\ Str.startswith "#" (fst e) = false) checksums).
  { clear - Hs. induction Hs as [|p e order checksums He _ IH]; constructor;
      [| exact IH]. destruct He as (H1 & H2 & H3 & _). auto. }
  assert (Hgood : forall entry, In entry checksums ->
             exists r, returns fs read_size_ver (submit cwd directory entry) r
                       /\ matches r = true).
  { clear - Hs. induction Hs as [|p e order checksums He _ IH];
      intros entry Hin; [destruct Hin |].
    destruct Hin as [<- | Hin]; [| now apply IH].
    destruct He as (_ & _ & _ & _ & Hret).
    exists (p, Some (fst e), Some (fst e)). split; [exact Hret |].
    cbn [matches option_eqb]. apply String.eqb_refl. }
  destruct (verify_all_match fs cwd directory read_size_ver keep_going
              sched_ver workers_ver checksums Hfv Hwv Hgood)
    as (st & done & Hrun & Hm & Hperm2 & HF2).
  exists checksums, (results st).
  pose proof (read_back checksums Hfields) as Hparse.
  split; [exact Hparse |].
  split; [now rewrite length_map |].
  split; [unfold verify_checksums_multithread; now rewrite Hrun |].
  split; [exact Hm |].
  split.
  - assert (E1 : map (fun r : triple => fst (fst r)) (results st)
                 = map fut_path done).
    { clear - HF2. induction HF2 as [|f r done rs Hfr _ IH]; [reflexivity |].
      cbn [map]. now rewrite (returns_path _ _ _ _ Hfr), IH. }
    assert (E2 : map fut_path (map (submit cwd directory) checksums) = order).
    { clear - Hs. induction Hs as [|p e order checksums He _ IH]; [reflexivity |].
      cbn [map]. destruct He as (_ & _ & _ & Hp & _). now rewrite Hp, IH. }
    rewrite E1. rewrite <- E2 in Hperm.
    eapply Permutation_trans; [| exact Hperm].
    apply Permutation_map, Permutation_sym, Hperm2.
  - unfold main_verify. rewrite Hparse, Hrun. cbn [fst]. f_equal.
    clear - Hm. induction (results st) as [|[[p c] e] rs IH]; [reflexivity |].
    cbn [forallb matches] in Hm. apply andb_prop in Hm as [Hr Hrs].
    cbn [existsb]. rewrite option_eqb_sym, Hr. cbn [negb orb]. now apply IH.
Qed.

Lemma manifest_round_trip_witness :
  fst (main_verify Example.fs "/" "/data" 4096 false lifo 5
         (file_text
            (printed
               (calculate_checksums_multithread Example.fs "/" "/data" 4096
                  "./" fifo 5 false Example.t))))
  = Ok false.
Proof.
  assert (Hread : forall p,
             In p (discovered (render ["data"]) false Example.t) ->
             is_checksum_name p = false ->
             exists content, Example.fs p = Some (Regular content)).
  { intros p Hp _. vm_compute in Hp.
    destruct Hp as [<- | [<- | []]]; eexists; reflexivity. }
  destruct (manifest_round_trip Example.fs "/" ["data"] Example.t "./"
              false false 4096 4096 5 5 fifo lifo fifo_fair lifo_fair
              eq_refl eq_refl (or_introl eq_refl) eq_refl eq_refl
              granted_example granted_example Hread)
    as (_ & checksums & ledger & _ & _ & _ & _ & _ & H).
  exact H.
Defined.

(** C6 (as stated) fails: a file whose name holds a blank is listed in
    the manifest of its unmodified directory, and the verification of
    that manifest looks for another path and reports a mismatch. *)
Lemma round_trip_breaks_on_blank :
  let fs : filesystem :=
    Machine
      (fun p =>
         if String.eqb p "/data/my file.txt"
         then Some (Regular (bytes_of "abc")) else None)
      65536 in
  let manifest :=
    file_text
      (printed (calculate_checksums_multithread fs "/" "/data" 4096 "./"
                  fifo 5 true (Dir [] ["my file.txt"]))) in
  manifest = file_text ["900150983cd24fb0d6963f7d28e17f72  ./my file.txt"]
  /\ read_checksum_file manifest
     = Ok [("900150983cd24fb0d6963f7d28e17f72", "./my")]
  /\ verify_checksums_multithread fs "/" "/data" 4096 true fifo 5
       [("900150983cd24fb0d6963f7d28e17f72", "./my")]
     = Ok [("/data/my", None, Some "900150983cd24fb0d6963f7d28e17f72")]
  /\ fst (main_verify fs "/" "/data" 4096 true fifo 5 manifest) = Ok true.
Proof. vm_compute. repeat split. Qed.


(** ** Hidden entries, end to end *)

Lemma is_hidden_render cs :
  forallb legal_name cs = true ->
  is_hidden (render cs) = existsb (Str.startswith ".") cs.
Proof.
  intros H. unfold is_hidden. rewrite split_on_render by assumption.
  now destruct cs.
Qed.

Lemma string_length_app a b :
  String.length (a ++ b)%string = String.length a + String.length b.
Proof. induction a as [|x a IH]; simpl; [reflexivity | now rewrite IH]. Qed.

Lemma endswith_suffix p b :
  String.length p <= String.length b ->
  forall a, Str.endswith p (a ++ b)%string = Str.endswith p b.
Proof.
  intros Hlen. induction a as [|x a IH]; [reflexivity |].
  cbn [append Str.endswith]. rewrite IH.
  destruct (String.eqb p (String x (a ++ b))) eqn:E; [| reflexivity].
  apply String.eqb_eq in E. subst p. cbn [String.length] in Hlen.
  rewrite string_length_app in Hlen. lia.
Qed.

Lemma render_snoc cs n : exists X, render (cs ++ [n]) = (X ++ n)%string.
Proof.
  unfold render. destruct cs as [|c cs].
  - now exists "/".
  - rewrite join_with_snoc by discriminate.
    exists ("/" ++ Str.join_with "/" (c :: cs) ++ "/")%string.
    now rewrite !string_app_assoc.
Qed.

Lemma batch_os_walk_example cs batch_size :
  forallb legal_name cs = true -> is_hidden (render cs) = false ->
  (1 < batch_size)%Z ->
  batch_os_walk (render cs) batch_size true Example.t
  = [[render (cs ++ ["visible.txt"])]].
Proof.
  intros Hcs Hvis Hsize.
  assert (Hp : is_hidden (render (cs ++ ["visible.txt"])) = false).
  { rewrite is_hidden_render in *;
      try (rewrite forallb_app, Hcs; reflexivity); try assumption.
    rewrite existsb_app, Hvis. reflexivity. }
  unfold batch_os_walk, Example.t. cbn [os_walk].
  change (keep_dir true ".hidden") with false. cbv iota.
  cbn [app fold_left visit_dir]. unfold visit_file.
  rewrite join_render by (assumption || reflexivity).
  rewrite Hp. cbn [negb orb file_batch yielded app List.length].
  destruct (Z.eqb_spec (Z.of_nat 1) batch_size) as [E | _]; [lia |].
  reflexivity.
Qed.

Lemma filter_visible_files cs files :
  forallb legal_name cs = true -> forallb legal_name files = true ->
  existsb (Str.startswith ".") cs = false ->
  filter (fun p => negb true || negb (is_hidden p))
         (map (Path.join (render cs)) files)
  = map (fun rest => render (cs ++ rest))
        (map (fun f => [f])
             (filter (fun f => negb (Str.startswith "." f)) files)).
Proof.
  intros Hcs Hfiles Hvis.
  induction files as [|f files IH]; [reflexivity |].
  cbn [forallb] in Hfiles. apply andb_prop in Hfiles as [Hf Hfiles].
  cbn [map filter]. rewrite join_render by assumption.
  rewrite is_hidden_render
    by (rewrite forallb_app, Hcs; cbn [forallb]; now rewrite Hf).
  rewrite existsb_app, Hvis. cbn [existsb orb negb]. rewrite orb_false_r.
  destruct (Str.startswith "." f); cbn [negb map]; rewrite <- (IH Hfiles);
    reflexivity.
Qed.

(** Without a hidden component in the path of the root, the paths to
    deliver under [skip_hidden] are the visible files of the tree. *)
Lemma discovered_visible_files : forall t cs,
  forallb legal_name cs = true -> legal_tree t = true ->
  existsb (Str.startswith ".") cs = false ->
  discovered (render cs) true t
  = map (fun rest => render (cs ++ rest)) (visible_files t).
Proof.
  induction t as [subdirs files IH] using tree_ind. intros cs Hcs Hlegal Hvis.
  unfold discovered. cbn [os_walk flat_map visible_files]. rewrite map_app.
  cbn [legal_tree] in Hlegal. apply andb_prop in Hlegal as [Hfiles Hsubs].
  f_equal; [now apply filter_visible_files |].
  induction subdirs as [|[d sub] ds IHds]; [reflexivity |].
  inversion IH as [|? ? IHsub IHrest]; subst. cbn [snd] in IHsub.
  apply andb_prop in Hsubs as [Hd Hrest]. apply andb_prop in Hd as [Hd Hsub].
  rewrite flat_map_app, map_app.
  f_equal; [| now apply IHds].
  replace (keep_dir true d) with (negb (Str.startswith "." d))
    by reflexivity.
  destruct (Str.startswith "." d) eqn:Ed; cbn [negb]; [reflexivity |].
  rewrite join_render by assumption.
  transitivity (discovered (render (cs ++ [d])) true sub); [reflexivity |].
  rewrite IHsub.
  - rewrite map_map. apply map_ext. intros rest.
    now rewrite <- app_assoc.
  - rewrite forallb_app, Hcs. cbn [forallb]. now rewrite Hd.
  - exact Hsub.
  - rewrite existsb_app, Hvis. cbn [existsb orb]. now rewrite Ed.
Qed.

(** C8 (as amended).  Take a directory whose own path has no component
    starting with [.].  With [skip_hidden] set, the paths [batch_os_walk]
    yields are, in order, the files of the tree that neither lie under
    a directory whose name starts with [.] nor have such a name
    themselves; the hidden directories are pruned before the descent,
    the walk being the walk of the tree with those directories removed;
    and whatever the directory, no yielded path has a component starting
    with [.].  For such a directory holding .hidden/file.txt and
    visible.txt, the manifest written has the one line of visible.txt. *)
Theorem hidden_entries_skipped :
  forall sched, fair sched ->
    (forall root_comps batch_size t,
        forallb legal_name root_comps = true ->
        legal_tree t = true ->
        existsb (Str.startswith ".") root_comps = false ->
        List.concat (batch_os_walk (render root_comps) batch_size true t)
        = map (fun rest => render (root_comps ++ rest)) (visible_files t))
    /\ (forall directory t,
           os_walk (keep_dir true) directory t
           = os_walk (fun _ => true) directory (prune t))
    /\ (forall directory batch_size t batch p,
           In batch (batch_os_walk directory batch_size true t) ->
           In p batch ->
           existsb (Str.startswith ".") (Str.split_on Str.sep p) = false)
    /\ (forall (fs : filesystem) cwd root_comps dotslash read_size workers
               content,
           forallb legal_name root_comps = true ->
           existsb (Str.startswith ".") root_comps = false ->
           (0 < workers)%Z -> granted fs read_size ->
           fs (render (root_comps ++ ["visible.txt"]))
           = Some (Regular content) ->
           calculate_checksums_multithread fs cwd (render root_comps)
             read_size dotslash sched workers true Example.t
           = GenState
               [format_line (Some (MD5.hexdigest content)) dotslash
                            "visible.txt"]
               None).
Proof.
  intros sched Hfair. split; [| split; [| split]].
  - intros root_comps batch_size t Hroot Ht Hvis.
    rewrite concat_batch_os_walk. now apply discovered_visible_files.
  - intros. apply os_walk_prune.
  - intros directory batch_size t batch p Hb Hp.
    apply (discovered_visible directory t).
    rewrite <- (concat_batch_os_walk directory batch_size true t).
    apply in_concat. eauto.
  - intros fs cwd root_comps dotslash read_size workers content
           Hroot Hvis Hw Hrs Hfs.
    unfold calculate_checksums_multithread, executor.
    destruct (workers <=? 0)%Z eqn:E; [apply Z.leb_le in E; lia |].
    rewrite batch_os_walk_example
      by (try assumption; try lia; now rewrite is_hidden_render).
    cbn [gen_batches filter].
    assert (Hck : is_checksum_name (render (root_comps ++ ["visible.txt"]))
                  = false).
    { unfold is_checksum_name.
      destruct (render_snoc root_comps "visible.txt") as [X ->].
      now rewrite !endswith_suffix by (simpl; lia). }
    rewrite Hck. cbn [negb].
    rewrite (fair_singleton sched 0 _ Hfair). cbn [collect].
    rewrite (report_line fs cwd root_comps ["visible.txt"] dotslash
               read_size content);
      [reflexivity | discriminate | | assumption | assumption].
    rewrite forallb_app, Hroot. reflexivity.
Qed.

Lemma hidden_entries_skipped_witness :
  printed (calculate_checksums_multithread Example.fs "/" Example.root 4096
             "./" lifo 5 true Example.t)
  = ["900150983cd24fb0d6963f7d28e17f72  ./visible.txt"].
Proof.
  change Example.root with (render ["data"]).
  rewrite (proj2 (proj2 (proj2 (hidden_entries_skipped lifo lifo_fair)))
             Example.fs "/" ["data"] "./" 4096%Z 5%Z (bytes_of "abc")
             eq_refl eq_refl eq_refl granted_example eq_refl).
  vm_compute. reflexivity.
Defined.

(** C8 (as stated) fails: the directory /srv/.cache/data holds
    .hidden/file.txt and visible.txt, and the manifest generated for it
    with [skip_hidden] is empty, the line of visible.txt missing. *)
Lemma visible_file_lost_below_hidden_root :
  let fs : filesystem :=
    Machine
      (fun p =>
         if String.eqb p "/srv/.cache/data/visible.txt"
         then Some (Regular (bytes_of "abc"))
         else if String.eqb p "/srv/.cache/data/.hidden/file.txt"
              then Some (Regular (bytes_of "a"))
         else None)
      65536 in
  calculate_checksums_multithread fs "/" "/srv/.cache/data" 4096 "./"
    fifo 5 true Example.t
  = GenState [] None
  /\ calculate_checksums_multithread fs "/" "/srv/.cache/data" 4096 "./"
       fifo 5 false Example.t
     = GenState [ "900150983cd24fb0d6963f7d28e17f72  ./visible.txt";
                  "0cc175b9c0f1b6a831c399e269772661  ./.hidden/file.txt" ]
                None.
Proof. vm_compute. split; reflexivity. Qed.

(** * Further properties of the program *)

(** ** [batch] *)

Lemma batch_unfold {A} (l : list A) (n : Z) :
  (0 < n)%Z ->
  batch l n
  = Ok (map (fun j => firstn (Z.to_nat n) (skipn (j * Z.to_nat n) l))
            (seq 0 ((List.length l + Z.to_nat n - 1) / Z.to_nat n))).
Proof.
  intros Hpos. unfold batch.
  destruct (n =? 0)%Z eqn:E0; [apply Z.eqb_eq in E0; lia |].
  destruct (n <? 0)%Z eqn:E1; [apply Z.ltb_lt in E1; lia |].
  unfold range0. rewrite map_map. f_equal. apply map_ext.
  intros j. apply slice_clip.
Qed.

Lemma ceil_div_bound len k j :
  0 < k -> j < (len + k - 1) / k -> j * k < len.
Proof.
  intros Hk Hj.
  pose proof (Nat.div_mod_eq (len + k - 1) k) as Hd.
  pose proof (Nat.mod_upper_bound (len + k - 1) k) as Hm.
  nia.
Qed.

(** X1.  For a positive size, [batch] cuts a list into consecutive
    chunks: put end to end they are the list, there are as many as the
    length divided by the size, rounded up, none is empty, and all but
    the last hold exactly [n] elements, the last at most [n]. *)
Theorem batch_partitions :
  forall (A : Type) (l : list A) (n : Z) (chunks : list (list A)),
    (0 < n)%Z ->
    batch l n = Ok chunks ->
    List.concat chunks = l
    /\ List.length chunks
       = (List.length l + Z.to_nat n - 1) / Z.to_nat n
    /\ Forall (fun c => c <> [] /\ (Z.of_nat (List.length c) <= n)%Z) chunks
    /\ (forall front last,
           chunks = front ++ [last] ->
           Forall (fun c => Z.of_nat (List.length c) = n) front).
Proof.
  intros A l n chunks Hpos Hb.
  split; [now apply (batch_concat l n) |].
  rewrite batch_unfold in Hb by exact Hpos. inversion Hb as [Hc]. clear Hb.
  set (k := Z.to_nat n) in *. assert (Hk : 0 < k) by (unfold k; lia).
  set (m := (List.length l + k - 1) / k) in *.
  assert (Hlen : forall j, j < m ->
             List.length (firstn k (skipn (j * k) l))
             = Nat.min k (List.length l - j * k)
             /\ j * k < List.length l).
  { intros j Hj. rewrite length_firstn, length_skipn.
    split; [reflexivity | now apply ceil_div_bound]. }
  split; [now rewrite length_map, length_seq |]. split.
  - apply Forall_forall. intros c Hin.
    apply in_map_iff in Hin as [j [<- Hj]]. apply in_seq in Hj.
    destruct (Hlen j) as [Hl Hlt]; [lia |]. split.
    + intros E. rewrite E in Hl. simpl in Hl. lia.
    + rewrite Hl. unfold k. lia.
  - intros front last E.
    destruct m as [|m']; [destruct front; discriminate |].
    rewrite seq_S, map_app in E. cbn [map] in E.
    apply app_inj_tail in E as [<- _].
    apply Forall_forall. intros c Hin.
    apply in_map_iff in Hin as [j [<- Hj]]. apply in_seq in Hj.
    destruct (Hlen j) as [Hl _]; [lia |].
    destruct (Hlen (S j)) as [_ Hnext]; [lia |].
    rewrite Hl. unfold k in *. lia.
Qed.

Lemma batch_partitions_witness :
  batch [1; 2; 3; 4; 5; 6; 7] 3 = Ok [[1; 2; 3]; [4; 5; 6]; [7]]
  /\ List.concat [[1; 2; 3]; [4; 5; 6]; [7]] = [1; 2; 3; 4; 5; 6; 7].
Proof.
  split; [reflexivity |].
  apply (batch_partitions nat [1; 2; 3; 4; 5; 6; 7] 3
           [[1; 2; 3]; [4; 5; 6]; [7]]); [lia | reflexivity].
Defined.

(** ** [verify_checksums_multithread] and the verify branch of [main] *)

Lemma returns_shape fs read_size f r :
  returns fs read_size f r ->
  fst (fst r) = fut_path f /\ snd r = fut_expected f.
Proof.
  unfold returns, calculate_file_checksum.
  destruct (fs (fut_path f)) as [[content|]|]; [| discriminate |].
  - destruct (hash_stream (buffer_max fs) read_size content); cbn [bind];
      intros H; inversion H; auto.
  - intros H; inversion H; auto.
Qed.

Lemma Forall2_In_l {A B} (R : A -> B -> Prop) l l' a :
  Forall2 R l l' -> In a l -> exists b, In b l' /\ R a b.
Proof.
  induction 1 as [|x y l l' Hxy _ IH]; intros Hin; [destruct Hin |].
  destruct Hin as [<- | Hin].
  - exists y. split; [now left | exact Hxy].
  - destruct (IH Hin) as [b [Hb Hab]]. exists b. split; [now right | exact Hab].
Qed.

Lemma mismatch_flag (rs : list triple) :
  existsb (fun r : triple =>
             let '(_, calculated_checksum, expected_checksum) := r in
             negb (option_eqb calculated_checksum expected_checksum)) rs
  = negb (forallb matches rs).
Proof.
  induction rs as [|[[p c] e] rs IH]; [reflexivity |].
  cbn [existsb forallb matches]. rewrite IH, option_eqb_sym.
  now destruct (option_eqb e c), (forallb matches rs).
Qed.

(** A call that returns has consumed every future. *)
Lemma verify_returned fs cwd directory read_size keep_going sched
    max_workers checksums st :
  fair sched ->
  verify_run fs cwd directory read_size keep_going sched max_workers
             checksums = (st, None) ->
  exists done,
    Permutation (map (submit cwd directory) checksums) done
    /\ Forall2 (returns fs read_size) done (results st)
    /\ (keep_going = false -> forallb matches (results st) = true).
Proof.
  intros Hfair Hrun.
  destruct (verify_run_cases _ _ _ _ _ _ _ _ _ _ Hfair Hrun)
    as [(_ & _ & Hoe) | (_ & chunks & _ & Hcat & Hchunks)]; [discriminate |].
  apply (verify_chunks_cases _ _ _ _ _ _ Hfair) in Hchunks.
  destruct Hchunks
    as (n & done & rest & rs & _ & Hperm & HF & Hres & _ & _ & Hend & Hnone & _).
  cbn [results app] in Hres. rewrite Hres.
  destruct Hend as [(_ & -> & Hm) | [(f & e & rest' & _ & _ & Hc & _) | (_ & earlier & r & _ & _ & _ & Hc)]];
    [| discriminate | discriminate].
  exists done. rewrite app_nil_r in Hperm.
  rewrite (Hnone eq_refl), firstn_all, Hcat in Hperm. auto.
Qed.

(** What a call that raises has met. *)
Lemma verify_raised fs cwd directory read_size keep_going sched
    max_workers checksums st e :
  fair sched ->
  verify_run fs cwd directory read_size keep_going sched max_workers
             checksums = (st, Some e) ->
  ((max_workers <= 0)%Z /\ e = ValueError_max_workers)
  \/ (exists entry e',
         In entry checksums
         /\ calculate_file_checksum fs (fut_path (submit cwd directory entry))
              read_size (Some (fst entry)) = Raise e'
         /\ e = RuntimeError (Some (snd entry)) e')
  \/ (keep_going = false
      /\ exists r, In r (results st) /\ matches r = false
                   /\ e = mismatch_error r).
Proof.
  intros Hfair Hrun.
  destruct (verify_run_cases _ _ _ _ _ _ _ _ _ _ Hfair Hrun)
    as [(Hneg & _ & Hoe) | (_ & chunks & _ & Hcat & Hchunks)].
  { left. inversion Hoe. auto. }
  apply (verify_chunks_cases _ _ _ _ _ _ Hfair) in Hchunks.
  destruct Hchunks
    as (n & done & rest & rs & _ & Hperm & _ & Hres & _ & _ & Hend & _).
  cbn [results app] in Hres.
  destruct Hend as [(Hc & _) | [(f & e' & rest' & -> & Hc & He & _) | (Hk & earlier & r & -> & _ & Hr & He)]].
  - discriminate.
  - right; left. inversion He; subst e. clear He.
    assert (Hin : In f (map (submit cwd directory)
                            (List.concat (firstn n chunks)))).
    { apply (Permutation_in _ (Permutation_sym Hperm)).
      apply in_or_app. right. now left. }
    apply in_map_iff in Hin as [entry [<- Hin]].
    exists entry, e'.
    split; [| split; [now destruct entry | now destruct entry]].
    rewrite <- Hcat, <- (firstn_skipn n chunks), concat_app.
    apply in_or_app. now left.
  - right; right. split; [exact Hk |]. exists r. inversion He; subst e.
    split; [| auto]. rewrite Hres. apply in_or_app. right. now left.
Qed.

(** X2.  Whenever [verify_checksums_multithread] returns, with or
    without [keep_going], the ledger it returns is complete: it has
    exactly as many triples as the manifest has entries, one for each
    entry, carrying the absolute path the entry resolves to and the
    digest the entry records.  (The count warning of line 202 of [main]
    therefore never fires.) *)
Theorem returned_ledger_is_complete :
  forall fs cwd directory read_size keep_going sched max_workers
         checksums ledger,
    fair sched ->
    verify_checksums_multithread fs cwd directory read_size keep_going
      sched max_workers checksums = Ok ledger ->
    List.length ledger = List.length checksums
    /\ exists entries,
         Permutation checksums entries
         /\ Forall2 (fun (entry : string * string) (r : triple) =>
                       returns fs read_size (submit cwd directory entry) r
                       /\ fst (fst r)
                          = Path.abspath cwd (Path.join directory (snd entry))
                       /\ snd r = Some (fst entry))
                    entries ledger.
Proof.
  intros fs cwd directory read_size keep_going sched max_workers
         checksums ledger Hfair Hok.
  unfold verify_checksums_multithread in Hok.
  destruct (verify_run fs cwd directory read_size keep_going sched
              max_workers checksums) as [st [e|]] eqn:Hrun; [discriminate |].
  inversion Hok; subst ledger. clear Hok.
  destruct (verify_returned _ _ _ _ _ _ _ _ _ Hfair Hrun)
    as (done & Hperm & HF & _).
  apply Permutation_sym, Permutation_map_inv in Hperm as [entries [-> Hp]].
  assert (HF' : Forall2 (fun (entry : string * string) (r : triple) =>
                   returns fs read_size (submit cwd directory entry) r
                   /\ fst (fst r)
                      = Path.abspath cwd (Path.join directory (snd entry))
                   /\ snd r = Some (fst entry))
                entries (results st)).
  { clear - HF. remember (results st) as rs. clear Heqrs. revert rs HF.
    induction entries as [|[d file] entries IH]; intros rs HF;
      inversion HF as [|? r ? rs' Hr Hrest]; subst; constructor; auto.
    split; [exact Hr |]. now apply returns_shape in Hr. }
  split; [| now exists entries].
  rewrite <- (Forall2_length HF'). symmetry. now apply Permutation_length.
Qed.

Lemma returned_ledger_is_complete_witness :
  List.length
    [ ("/data/absent.txt", None, Some "00000000000000000000000000000000");
      ("/data/visible.txt", Some "900150983cd24fb0d6963f7d28e17f72",
       Some "900150983cd24fb0d6963f7d28e17f72") ]
  = List.length
      [ ("900150983cd24fb0d6963f7d28e17f72", "./visible.txt");
        ("00000000000000000000000000000000", "./absent.txt") ].
Proof.
  refine (proj1 (returned_ledger_is_complete Example.fs "/" Example.root
                   4096 true lifo 5 _ _ lifo_fair _)).
  vm_compute. reflexivity.
Defined.

(** X3.  Without [keep_going] a ledger that is returned holds no
    mismatch, so the verify branch of [main] never ends with
    [there_was_an_error] set: a failed comparison always leaves by the
    exception. *)
Theorem fail_fast_never_reports :
  forall fs cwd directory read_size sched max_workers,
    fair sched ->
    (forall checksums ledger,
        verify_checksums_multithread fs cwd directory read_size false sched
          max_workers checksums = Ok ledger ->
        forallb matches ledger = true)
    /\ (forall manifest_text,
           fst (main_verify fs cwd directory read_size false sched
                  max_workers manifest_text) <> Ok true).
Proof.
  intros fs cwd directory read_size sched max_workers Hfair.
  assert (Hclean : forall checksums st,
             verify_run fs cwd directory read_size false sched max_workers
                        checksums = (st, None) ->
             forallb matches (results st) = true).
  { intros checksums st Hrun.
    destruct (verify_returned _ _ _ _ _ _ _ _ _ Hfair Hrun) as (_ & _ & _ & H).
    now apply H. }
  split.
  - intros checksums ledger. unfold verify_checksums_multithread.
    destruct (verify_run fs cwd directory read_size false sched max_workers
                checksums) as [st [e|]] eqn:Hrun; [discriminate |].
    intros H. inversion H; subst. now apply (Hclean checksums).
  - intros manifest_text. unfold main_verify.
    destruct (read_checksum_file manifest_text) as [checksums|e];
      [| discriminate].
    destruct (verify_run fs cwd directory read_size false sched max_workers
                checksums) as [st [e|]] eqn:Hrun; [discriminate |].
    cbn [fst]. rewrite mismatch_flag, (Hclean checksums st Hrun).
    discriminate.
Qed.

Lemma fail_fast_never_reports_witness :
  fst (main_verify Example.fs "/" Example.root 4096 false fifo 5
         (file_text ["00000000000000000000000000000000  ./visible.txt"]))
  <> Ok true.
Proof.
  apply (proj2 (fail_fast_never_reports Example.fs "/" Example.root 4096
                  fifo 5 fifo_fair)).
Defined.

Lemma existsb_perm {A} (f : A -> bool) (l l' : list A) :
  Permutation l l' -> existsb f l = existsb f l'.
Proof.
  induction 1 as [| x l l' _ IH | x y l | l l' l'' _ IH1 _ IH2];
    cbn [existsb].
  - reflexivity.
  - now rewrite IH.
  - now destruct (f x), (f y).
  - now rewrite IH1.
Qed.

Lemma returns_matches fs cwd directory read_size entry r :
  returns fs read_size (submit cwd directory entry) r ->
  matches r = entry_ok fs cwd directory read_size entry.
Proof.
  unfold returns, entry_ok, calculate_file_checksum.
  destruct entry as [d file]. cbn [submit fut_path fut_expected fst].
  destruct (fs (Path.abspath cwd (Path.join directory file))) as [[c|]|];
    [| discriminate |].
  - destruct (hash_stream (buffer_max fs) read_size c); cbn [bind];
      intros H; inversion H; reflexivity.
  - intros H; inversion H; reflexivity.
Qed.

(** X4.  With [keep_going] a mismatch never stops the run: when the
    pool has a worker, the read size is positive and granted, and no
    path named by the manifest makes [open] fail otherwise than with
    [FileNotFoundError], the call returns a ledger, whatever the order
    of completion, and the verdict of [main] is that of the manifest
    alone: an error is reported exactly when some entry names a file
    that is not found or a file whose digest differs from the recorded
    one. *)
Theorem keep_going_runs_to_the_end :
  forall fs cwd directory read_size sched max_workers manifest_text
         checksums,
    fair sched ->
    (0 < max_workers)%Z ->
    granted fs read_size ->
    read_checksum_file manifest_text = Ok checksums ->
    (forall entry,
        In entry checksums ->
        fs (fut_path (submit cwd directory entry)) <> Some Unreadable) ->
    (exists ledger,
        verify_checksums_multithread fs cwd directory read_size true sched
          max_workers checksums = Ok ledger)
    /\ fst (main_verify fs cwd directory read_size true sched max_workers
              manifest_text)
       = Ok (existsb (fun entry =>
                        negb (entry_ok fs cwd directory read_size entry))
                     checksums).
Proof.
  intros fs cwd directory read_size sched max_workers manifest_text
         checksums Hfair Hpos Hsize Hparse Hread.
  destruct (verify_run fs cwd directory read_size true sched max_workers
              checksums) as [st oe] eqn:Hrun.
  destruct oe as [e|].
  { exfalso. destruct (verify_raised _ _ _ _ _ _ _ _ _ _ Hfair Hrun)
      as [(Hneg & _) | [(entry & e' & Hin & Hc & _) | (Hk & _)]];
      [lia | | discriminate].
    apply (task_raises_unreadable _ _ _ _ _ Hsize) in Hc as [Hfs _].
    now apply (Hread entry Hin). }
  split.
  - exists (results st). unfold verify_checksums_multithread. now rewrite Hrun.
  - unfold main_verify. rewrite Hparse, Hrun. cbn [fst]. f_equal.
    destruct (verify_returned _ _ _ _ _ _ _ _ _ Hfair Hrun)
      as (done & Hperm & HF & _).
    apply Permutation_sym, Permutation_map_inv in Hperm as [entries [-> Hp]].
    rewrite (existsb_perm _ _ _ Hp), mismatch_flag.
    clear - HF. remember (results st) as rs. clear Heqrs. revert rs HF.
    induction entries as [|entry entries IH]; intros rs HF;
      inversion HF as [|? r ? rs' Hr Hrest]; subst; [reflexivity |].
    cbn [forallb existsb]. rewrite (returns_matches _ _ _ _ _ _ Hr).
    specialize (IH rs' Hrest).
    destruct (entry_ok fs cwd directory read_size entry); cbn [negb andb orb];
      [exact IH | reflexivity].
Qed.

Lemma keep_going_runs_to_the_end_witness :
  fst (main_verify Example.fs "/" Example.root 4096 true lifo 5
         (file_text [ "00000000000000000000000000000000  ./visible.txt";
                      "0cc175b9c0f1b6a831c399e269772661  ./.hidden/file.txt" ]))
  = Ok true.
Proof.
  refine (proj2 (keep_going_runs_to_the_end Example.fs "/" Example.root 4096
                   lifo 5
                   (file_text
                      [ "00000000000000000000000000000000  ./visible.txt";
                        "0cc175b9c0f1b6a831c399e269772661  ./.hidden/file.txt" ])
                   [ ("00000000000000000000000000000000", "./visible.txt");
                     ("0cc175b9c0f1b6a831c399e269772661", "./.hidden/file.txt") ]
                   lifo_fair eq_refl granted_example eq_refl _)).
  intros entry [<- | [<- | []]]; vm_compute; discriminate.
Defined.

(** X5.  A path named by the manifest for which [open] fails otherwise
    than with [FileNotFoundError] (a file that may not be read, a
    directory, a path through a regular file) is fatal to the run under
    both policies and for every read size: the call raises and returns
    no ledger.  With [keep_going], a worker in the pool and a positive,
    granted read size, the exception is the [RuntimeError] that wraps
    the failure of such a path's task. *)
Theorem unreadable_entry_is_fatal :
  forall (fs : filesystem) cwd directory read_size keep_going sched
         max_workers checksums entry,
    fair sched ->
    In entry checksums ->
    fs (fut_path (submit cwd directory entry)) = Some Unreadable ->
    exists e,
      verify_checksums_multithread fs cwd directory read_size keep_going
        sched max_workers checksums = Raise e
      /\ (keep_going = true -> (0 < max_workers)%Z ->
          granted fs read_size ->
          exists entry',
            In entry' checksums
            /\ fs (fut_path (submit cwd directory entry')) = Some Unreadable
            /\ e = RuntimeError (Some (snd entry'))
                     (OSError (fut_path (submit cwd directory entry')))).
Proof.
  intros fs cwd directory read_size keep_going sched max_workers checksums
         entry Hfair Hin Hfs.
  unfold verify_checksums_multithread.
  destruct (verify_run fs cwd directory read_size keep_going sched
              max_workers checksums) as [st [e|]] eqn:Hrun.
  - exists e. split; [reflexivity |]. intros Hk Hpos Hsize.
    destruct (verify_raised _ _ _ _ _ _ _ _ _ _ Hfair Hrun)
      as [(Hneg & _) | [(entry' & e' & Hin' & Hc & ->) | (Hk' & _)]];
      [lia | | congruence].
    apply (task_raises_unreadable _ _ _ _ _ Hsize) in Hc as [Hfs' ->].
    exists entry'. auto.
  - exfalso.
    destruct (verify_returned _ _ _ _ _ _ _ _ _ Hfair Hrun)
      as (done & Hperm & HF & _).
    assert (Hd : In (submit cwd directory entry) done).
    { apply (Permutation_in _ Hperm). now apply in_map. }
    destruct (Forall2_In_l _ _ _ _ HF Hd) as (r & _ & Hr).
    unfold returns, calculate_file_checksum in Hr. rewrite Hfs in Hr.
    discriminate.
Qed.

Lemma unreadable_entry_is_fatal_witness :
  let fs : filesystem :=
    Machine
      (fun p =>
         if String.eqb p "/data/secret.bin" then Some Unreadable
         else Example.fs p)
      65536 in
  verify_checksums_multithread fs "/" Example.root 4096 true fifo 5
    [ ("900150983cd24fb0d6963f7d28e17f72", "./visible.txt");
      ("00000000000000000000000000000000", "secret.bin") ]
  = Raise (RuntimeError (Some "secret.bin") (OSError "/data/secret.bin")).
Proof.
  intros fs.
  assert (Hsize : granted fs 4096) by solve_granted.
  destruct (unreadable_entry_is_fatal fs "/" Example.root 4096 true fifo 5
              [ ("900150983cd24fb0d6963f7d28e17f72", "./visible.txt");
                ("00000000000000000000000000000000", "secret.bin") ]
              ("00000000000000000000000000000000", "secret.bin")
              fifo_fair (or_intror (or_introl eq_refl)) eq_refl)
    as (e & He & Hwrap).
  rewrite He. f_equal.
  destruct (Hwrap eq_refl eq_refl Hsize) as (entry' & Hin & Hfs & ->).
  destruct Hin as [<- | [<- | []]]; [vm_compute in Hfs; discriminate |].
  reflexivity.
Defined.

(** X6.  A manifest entry whose file is not found can never pass:
    under either policy the verify branch of [main] does not end with
    success, for the missing file is compared as a mismatch. *)
Theorem missing_file_fails_verification :
  forall (fs : filesystem) cwd directory read_size keep_going sched
         max_workers manifest_text checksums entry,
    fair sched ->
    read_checksum_file manifest_text = Ok checksums ->
    In entry checksums ->
    fs (fut_path (submit cwd directory entry)) = None ->
    fst (main_verify fs cwd directory read_size keep_going sched max_workers
           manifest_text) <> Ok false.
Proof.
  intros fs cwd directory read_size keep_going sched max_workers
         manifest_text checksums entry Hfair Hparse Hin Hfs.
  unfold main_verify. rewrite Hparse.
  destruct (verify_run fs cwd directory read_size keep_going sched
              max_workers checksums) as [st [e|]] eqn:Hrun; [discriminate |].
  cbn [fst]. rewrite mismatch_flag.
  destruct (verify_returned _ _ _ _ _ _ _ _ _ Hfair Hrun)
    as (done & Hperm & HF & _).
  assert (Hd : In (submit cwd directory entry) done).
  { apply (Permutation_in _ Hperm). now apply in_map. }
  destruct (Forall2_In_l _ _ _ _ HF Hd) as (r & Hr & Hret).
  assert (Hbad : matches r = false).
  { rewrite (returns_matches _ _ _ _ _ _ Hret). unfold entry_ok.
    now rewrite Hfs. }
  assert (Hall : forallb matches (results st) = false).
  { destruct (forallb matches (results st)) eqn:E; [| reflexivity].
    rewrite forallb_forall in E. rewrite (E r Hr) in Hbad. discriminate. }
  rewrite Hall. discriminate.
Qed.

Lemma missing_file_fails_verification_witness :
  fst (main_verify Example.fs "/" Example.root 4096 true fifo 5
         (file_text [ "900150983cd24fb0d6963f7d28e17f72  ./visible.txt";
                      "d41d8cd98f00b204e9800998ecf8427e  ./absent.txt" ]))
  <> Ok false.
Proof.
  apply (missing_file_fails_verification Example.fs "/" Example.root 4096
           true fifo 5
           (file_text [ "900150983cd24fb0d6963f7d28e17f72  ./visible.txt";
                        "d41d8cd98f00b204e9800998ecf8427e  ./absent.txt" ])
           [ ("900150983cd24fb0d6963f7d28e17f72", "./visible.txt");
             ("d41d8cd98f00b204e9800998ecf8427e", "./absent.txt") ]
           ("d41d8cd98f00b204e9800998ecf8427e", "./absent.txt")
           fifo_fair eq_refl (or_intror (or_introl eq_refl)) eq_refl).
Defined.

(** ** [calculate_file_checksum], the read size *)





(** ** [calculate_checksums_multithread] *)

Section GenerationFacts.
Variable fs : filesystem.
Variable cwd : string.
Variable directory : string.
Variable read_size : Z.
Variable dotslash : string.

Lemma collect_cases : forall completed out,
  exists done todo lines,
    completed = done ++ todo
    /\ Forall2 (fun p l => report fs cwd directory read_size dotslash p = Ok l)
               done lines
    /\ printed (collect fs cwd directory read_size dotslash completed out)
       = out ++ lines
    /\ (gen_raised (collect fs cwd directory read_size dotslash completed out)
        = None -> todo = [])
    /\ (forall e,
          gen_raised (collect fs cwd directory read_size dotslash completed out)
          = Some e ->
          exists p rest,
            todo = p :: rest
            /\ report fs cwd directory read_size dotslash p = Raise e).
Proof.
  induction completed as [|p completed IH]; intros out.
  - exists [], [], []. cbn. rewrite app_nil_r.
    repeat split; try constructor; discriminate.
  - cbn [collect].
    destruct (report fs cwd directory read_size dotslash p) as [line|e] eqn:Ep.
    + destruct (IH (out ++ [line])) as (done & todo & lines & -> & HF & Hp & Hn & Hs).
      exists (p :: done), todo, (line :: lines).
      split; [reflexivity |]. split; [now constructor |].
      split; [now rewrite Hp, <- app_assoc |]. split; assumption.
    + exists [], (p :: completed), []. cbn. rewrite app_nil_r.
      repeat split; try constructor; try discriminate.
      intros e' He'. inversion He'; subst. eauto.
Qed.

Lemma gen_batches_cases sched : fair sched ->
  forall batches i out,
    exists order rest lines,
      Forall2 (fun p l => report fs cwd directory read_size dotslash p = Ok l)
              order lines
      /\ printed (gen_batches fs cwd directory read_size dotslash sched i
                    batches out) = out ++ lines
      /\ Permutation
           (filter (fun p => negb (is_checksum_name p)) (List.concat batches))
           (order ++ rest)
      /\ (gen_raised (gen_batches fs cwd directory read_size dotslash sched i
                        batches out) = None -> rest = [])
      /\ (forall e,
            gen_raised (gen_batches fs cwd directory read_size dotslash sched
                          i batches out) = Some e ->
            exists p,
              In p rest
              /\ report fs cwd directory read_size dotslash p = Raise e).
Proof.
  intros Hfair. induction batches as [|b batches IH]; intros i out.
  - exists [], [], []. cbn. rewrite app_nil_r.
    repeat split; try constructor; discriminate.
  - cbn [gen_batches].
    set (futures := filter (fun f => negb (is_checksum_name f)) b).
    destruct (collect_cases (sched i string futures) out)
      as (done & todo & lines1 & Hsplit & HF1 & Hp1 & Hn1 & Hs1).
    assert (Hperm1 : Permutation futures (done ++ todo)).
    { rewrite <- Hsplit. apply Permutation_sym, Hfair. }
    cbn [List.concat]. rewrite filter_app. fold futures.
    destruct (gen_raised (collect fs cwd directory read_size dotslash
                            (sched i string futures) out)) as [e|] eqn:Eg.
    + exists done,
        (todo ++ filter (fun p => negb (is_checksum_name p))
                        (List.concat batches)), lines1.
      split; [exact HF1 |]. split; [exact Hp1 |]. split.
      { rewrite app_assoc. now apply Permutation_app_tail. }
      split; [rewrite Eg; discriminate |].
      intros e' He'. rewrite Eg in He'. inversion He'; subst e'.
      destruct (Hs1 e eq_refl) as (p & rest' & -> & Hp).
      exists p. split; [now left | exact Hp].
    + rewrite (Hn1 eq_refl), app_nil_r in Hperm1.
      destruct (IH (S i)
                  (printed (collect fs cwd directory read_size dotslash
                              (sched i string futures) out)))
        as (order & rest & lines & HF & Hp & Hperm & Hn & Hs).
      exists (done ++ order), rest, (lines1 ++ lines).
      split; [now apply Forall2_app |].
      split; [now rewrite Hp, Hp1, app_assoc |].
      split; [rewrite <- app_assoc; now apply Permutation_app |].
      split; assumption.
Qed.

End GenerationFacts.

(** X8.  In every generation run, finished or not, each line written is
    the report of one file to be hashed, in order, and the files
    reported are distinct occurrences of discovered paths that end
    neither in [.md5] nor in [.md5sum]: a file with such a name never
    gets a line.  A run that completes has reported every other
    discovered file exactly once. *)
Theorem manifest_lines_account_for_files :
  forall fs cwd directory read_size dotslash sched max_workers skip_hidden t,
    fair sched ->
    let g := calculate_checksums_multithread fs cwd directory read_size
               dotslash sched max_workers skip_hidden t in
    exists order rest,
      Forall2 (fun p l => report fs cwd directory read_size dotslash p = Ok l)
              order (printed g)
      /\ Permutation
           (filter (fun p => negb (is_checksum_name p))
                   (discovered directory skip_hidden t))
           (order ++ rest)
      /\ Forall (fun p => is_checksum_name p = false) order
      /\ (gen_raised g = None -> rest = []).
Proof.
  intros fs cwd directory read_size dotslash sched max_workers skip_hidden t
         Hfair g.
  assert (Hnames : forall order rest,
             Permutation
               (filter (fun p => negb (is_checksum_name p))
                       (discovered directory skip_hidden t))
               (order ++ rest) ->
             Forall (fun p => is_checksum_name p = false) order).
  { intros order rest Hperm. apply Forall_forall. intros p Hp.
    assert (Hin : In p (order ++ rest)) by (apply in_or_app; now left).
    apply (Permutation_in _ (Permutation_sym Hperm)) in Hin.
    apply filter_In in Hin as [_ Hck]. now destruct (is_checksum_name p). }
  unfold g, calculate_checksums_multithread.
  destruct (executor max_workers) as [[]|e].
  - destruct (gen_batches_cases fs cwd directory read_size dotslash sched Hfair
                (batch_os_walk directory (max_workers * 20) skip_hidden t) 0 [])
      as (order & rest & lines & HF & Hp & Hperm & Hn & _).
    rewrite concat_batch_os_walk in Hperm. cbn [app] in Hp.
    exists order, rest. rewrite Hp. repeat split; eauto.
  - exists [], (filter (fun p => negb (is_checksum_name p))
                       (discovered directory skip_hidden t)).
    cbn [printed gen_raised app].
    repeat split; try constructor; [apply Permutation_refl | discriminate].
Qed.

Lemma manifest_lines_account_for_files_witness :
  let t := Dir [] ["data.txt"; "data.txt.md5"] in
  let fs : filesystem :=
    Machine
      (fun p =>
         if String.eqb p "/data/data.txt" then Some (Regular (bytes_of "abc"))
         else if String.eqb p "/data/data.txt.md5"
              then Some (Regular (bytes_of "a"))
         else None)
      65536 in
  exists order rest,
    Forall2 (fun p l => report fs "/" "/data" 4096 "./" p = Ok l) order
            ["900150983cd24fb0d6963f7d28e17f72  ./data.txt"]
    /\ Permutation ["/data/data.txt"] (order ++ rest).
Proof.
  intros t fs.
  destruct (manifest_lines_account_for_files fs "/" "/data" 4096 "./" lifo 5
              true t lifo_fair) as (order & rest & HF & Hperm & _).
  exists order, rest. split; [exact HF | exact Hperm].
Defined.

(** X9.  A file to be hashed that exists and cannot be read stops the
    generation: the run ends with an exception, never with a complete
    manifest. *)
Theorem unreadable_file_stops_generation :
  forall (fs : filesystem) cwd directory read_size dotslash sched max_workers
         skip_hidden t p,
    fair sched ->
    In p (discovered directory skip_hidden t) ->
    is_checksum_name p = false ->
    fs p = Some Unreadable ->
    gen_raised (calculate_checksums_multithread fs cwd directory read_size
                  dotslash sched max_workers skip_hidden t) <> None.
Proof.
  intros fs cwd directory read_size dotslash sched max_workers skip_hidden t p
         Hfair Hin Hck Hfs Hnone.
  unfold calculate_checksums_multithread in Hnone.
  destruct (executor max_workers) as [[]|e]; [| discriminate].
  destruct (gen_batches_cases fs cwd directory read_size dotslash sched Hfair
              (batch_os_walk directory (max_workers * 20) skip_hidden t) 0 [])
    as (order & rest & lines & HF & _ & Hperm & Hn & _).
  rewrite concat_batch_os_walk, (Hn Hnone), app_nil_r in Hperm.
  assert (Hp : In p order).
  { apply (Permutation_in _ Hperm). apply filter_In. split; [exact Hin |].
    now rewrite Hck. }
  destruct (Forall2_In_l _ _ _ _ HF Hp) as (l & _ & Hl).
  unfold report, calculate_file_checksum in Hl. rewrite Hfs in Hl.
  discriminate.
Qed.

Lemma unreadable_file_stops_generation_witness :
  let fs : filesystem :=
    Machine
      (fun p =>
         if String.eqb p "/data/secret.bin" then Some Unreadable else None)
      65536 in
  gen_raised (calculate_checksums_multithread fs "/" "/data" 4096 "./" fifo 5
                true (Dir [] ["secret.bin"])) <> None.
Proof.
  intros fs.
  apply (unreadable_file_stops_generation fs "/" "/data" 4096 "./" fifo 5
           true (Dir [] ["secret.bin"]) "/data/secret.bin" fifo_fair
           (or_introl eq_refl) eq_refl eq_refl).
Defined.

(** ** [read_checksum_file] *)

Lemma filter_list_remove x l :
  Str.startswith "#" x = true ->
  filter (fun l => negb (Str.startswith "#" l)) (list_remove x l)
  = filter (fun l => negb (Str.startswith "#" l)) l.
Proof.
  intros Hx. induction l as [|y l IH]; [reflexivity |].
  cbn [list_remove filter]. destruct (String.eqb x y) eqn:E.
  - apply String.eqb_eq in E. subst y. now rewrite Hx.
  - cbn [filter]. now rewrite IH.
Qed.

Lemma strip_loop_data fuel : forall i lines l,
  strip_loop fuel i lines = Some l ->
  filter (fun l => negb (Str.startswith "#" l)) l
  = filter (fun l => negb (Str.startswith "#" l)) lines
  /\ List.length l <= List.length lines.
Proof.
  induction fuel as [|fuel IH]; intros i lines l H; cbn [strip_loop] in H.
  - destruct (nth_error lines i); [discriminate |]. inversion H; subst. auto.
  - destruct (nth_error lines i) as [line|]; [| inversion H; subst; auto].
    destruct (Str.startswith "#" line) eqn:E.
    + apply IH in H as [H1 H2]. rewrite filter_list_remove in H1 by exact E.
      pose proof (list_remove_length line lines). split; [exact H1 | lia].
    + now apply IH in H.
Qed.

Lemma mapM_length {A B} (f : A -> result B) : forall l bs,
  mapM f l = Ok bs -> List.length bs = List.length l.
Proof.
  induction l as [|a l IH]; intros bs H; cbn [mapM] in H.
  - now inversion H.
  - destruct (f a) as [b|e]; [| discriminate]. cbn [bind] in H.
    destruct (mapM f l) as [bs'|e]; [| discriminate]. cbn [bind] in H.
    inversion H; subst. simpl. now rewrite (IH bs').
Qed.

(** X10.  The loop that strips comments may leave comment lines behind,
    but it never loses or reorders data: the lines that do not start
    with [#] are the same, in the same order, before and after it.  A
    manifest that parses therefore yields at least one entry for each
    such line and at most one for each line. *)
Theorem data_lines_survive_stripping :
  forall lines,
    filter (fun l => negb (Str.startswith "#" l)) (strip_comments lines)
    = filter (fun l => negb (Str.startswith "#" l)) lines
    /\ (forall checksums,
           parse_lines lines = Ok checksums ->
           List.length (filter (fun l => negb (Str.startswith "#" l)) lines)
           <= List.length checksums <= List.length lines).
Proof.
  intros lines. destruct (strip_comments_total lines) as (l & E & Hl).
  destruct (strip_loop_data _ _ _ _ E) as [Hdata Hlen]. rewrite Hl.
  split; [exact Hdata |].
  intros checksums Hparse. unfold parse_lines in Hparse. rewrite Hl in Hparse.
  apply mapM_length in Hparse. rewrite Hparse, <- Hdata.
  split; [apply filter_length_le | exact Hlen].
Qed.

Lemma split_ws_tokens s : Forall (fun t => token t = true) (Str.split_ws s).
Proof.
  induction s as [|c s IH]; [constructor |]. cbn [Str.split_ws].
  destruct (Str.isspace c) eqn:Ec; [exact IH |].
  assert (Hone : token (String c "") = true).
  { unfold token. cbn [Str.all_chars]. now rewrite Ec. }
  destruct s as [|c' s']; [now repeat constructor |].
  destruct (Str.isspace c') eqn:Ec'; [now constructor |].
  destruct (Str.split_ws (String c' s')) as [|t ts]; [now repeat constructor |].
  inversion IH as [|? ? Ht Hts]; subst. constructor; [| exact Hts].
  unfold token in *. apply andb_prop in Ht as [_ Ht].
  cbn [Str.all_chars]. now rewrite Ec, Ht.
Qed.

(** X11.  Both fields of every entry that [read_checksum_file] returns
    are non-empty and free of whitespace: a path is cut at its first
    blank, never returned with one. *)
Theorem parsed_fields_are_tokens :
  forall manifest_text checksums,
    read_checksum_file manifest_text = Ok checksums ->
    Forall (fun entry : string * string =>
              token (fst entry) = true /\ token (snd entry) = true)
           checksums.
Proof.
  intros manifest_text checksums. unfold read_checksum_file, parse_lines.
  generalize (strip_comments (Str.readlines manifest_text)). intros lines.
  revert checksums. induction lines as [|line lines IH]; intros checksums H;
    cbn [mapM] in H.
  - inversion H. constructor.
  - destruct (parse_line line) as [[d q]|e] eqn:Ep; [| discriminate].
    cbn [bind] in H.
    destruct (mapM parse_line lines) as [rest|e]; [| discriminate].
    cbn [bind] in H. inversion H; subst. constructor; [| now apply IH].
    unfold parse_line in Ep. pose proof (split_ws_tokens line) as Ht.
    destruct (Str.split_ws line) as [|t1 [|t2 ts]]; try discriminate.
    inversion Ep; subst. inversion Ht as [|? ? H1 Ht']; subst.
    inversion Ht' as [|? ? H2 _]; subst. auto.
Qed.

Lemma parsed_fields_are_tokens_witness :
  token "./my" = true.
Proof.
  pose proof (parsed_fields_are_tokens
                (file_text ["900150983cd24fb0d6963f7d28e17f72  ./my file.txt"])
                [("900150983cd24fb0d6963f7d28e17f72", "./my")] eq_refl) as H.
  inversion H as [|? ? [_ Hq] _]. exact Hq.
Defined.

(** ** [batch_os_walk] *)

Lemma os_walk_more (keep1 keep2 : string -> bool) :
  (forall d, keep1 d = true -> keep2 d = true) ->
  forall t top root dirs files,
    In (root, dirs, files) (os_walk keep1 top t) ->
    exists dirs', In (root, dirs', files) (os_walk keep2 top t).
Proof.
  intros Himp. induction t as [subdirs files0 IH] using tree_ind.
  intros top root dirs files Hin. cbn [os_walk] in *.
  destruct Hin as [E | Hin].
  - inversion E; subst. eexists. left. reflexivity.
  - assert (Hd : exists dirs',
               In (root, dirs', files)
                  ((fix descend (ds : list (string * tree)) :=
                      match ds with
                      | [] => []
                      | (d, sub) :: ds' =>
                          (if keep2 d then os_walk keep2 (Path.join top d) sub
                           else []) ++ descend ds'
                      end) subdirs)).
    { induction subdirs as [|[d sub] ds IHds]; [destruct Hin |].
      inversion IH as [|? ? IHsub IHrest]; subst. cbn [snd] in IHsub.
      apply in_app_or in Hin as [Hin | Hin].
      - destruct (keep1 d) eqn:Ek; [| destruct Hin].
        rewrite (Himp d Ek).
        destruct (IHsub _ _ _ _ Hin) as [dirs' H'].
        exists dirs'. apply in_or_app. now left.
      - destruct (IHds IHrest Hin) as [dirs' H'].
        exists dirs'. apply in_or_app. now right. }
    destruct Hd as [dirs' H']. exists dirs'. now right.
Qed.

(** X12.  Skipping hidden entries only removes paths: every path that
    [batch_os_walk] yields with [skip_hidden] set is also yielded when
    it is not, whatever the two batch sizes. *)
Theorem skipping_only_removes :
  forall directory size_skipping size_all t batch p,
    In batch (batch_os_walk directory size_skipping true t) ->
    In p batch ->
    exists batch',
      In batch' (batch_os_walk directory size_all false t) /\ In p batch'.
Proof.
  intros directory size_skipping size_all t batch p Hb Hp.
  assert (Hin : In p (discovered directory true t)).
  { rewrite <- (concat_batch_os_walk directory size_skipping true t).
    apply in_concat. eauto. }
  assert (Hall : In p (discovered directory false t)).
  { unfold discovered in *.
    apply in_flat_map in Hin as [[[root dirs] files] [He Hf]].
    destruct (os_walk_more (keep_dir true) (keep_dir false)
                (fun d _ => eq_refl) t directory root dirs files He)
      as [dirs' He'].
    apply in_flat_map. exists (root, dirs', files). split; [exact He' |].
    apply filter_In in Hf as [Hf _]. apply filter_In. now split. }
  rewrite <- (concat_batch_os_walk directory size_all false t) in Hall.
  apply in_concat in Hall as (batch' & H1 & H2). eauto.
Qed.

Lemma skipping_only_removes_witness :
  exists batch',
    In batch' (batch_os_walk Example.root 1 false Example.t)
    /\ In "/data/visible.txt" batch'.
Proof.
  apply (skipping_only_removes Example.root 7 1 Example.t
           ["/data/visible.txt"] "/data/visible.txt");
    now left.
Defined.

(** X13.  A batch size below one turns batching off: the buffer never
    reaches the size, and the generator yields the discovered paths in a
    single batch at the end of the traversal, or nothing when there are
    none. *)
Theorem nonpositive_size_gives_one_batch :
  forall directory batch_size skip_hidden t,
    (batch_size <= 0)%Z ->
    batch_os_walk directory batch_size skip_hidden t
    = match discovered directory skip_hidden t with
      | [] => []
      | _ :: _ => [discovered directory skip_hidden t]
      end.
Proof.
  intros directory batch_size skip_hidden t Hsize.
  destruct (batch_os_walk_inv directory batch_size skip_hidden t)
    as [w [[Hfull Hne Hseen _] ->]].
  destruct (yielded w) as [|b ys].
  - cbn [List.concat app] in Hseen. rewrite <- Hseen.
    now destruct (file_batch w).
  - exfalso. apply Forall_inv in Hfull. apply Forall_inv in Hne.
    destruct b; [now apply Hne | simpl in Hfull; lia].
Qed.

Lemma nonpositive_size_gives_one_batch_witness :
  batch_os_walk Example.root 0 false Example.t
  = [["/data/visible.txt"; "/data/.hidden/file.txt"]].
Proof.
  rewrite nonpositive_size_gives_one_batch by lia. reflexivity.
Defined.

(** ** The generation branch of [main] *)

Lemma hexdigest_hex content :
  Str.all_chars is_hex (MD5.hexdigest content) = true.
Proof. unfold MD5.hexdigest. apply hex_all_hex. Qed.

Lemma hex_inline s :
  Str.all_chars is_hex s = true -> Str.all_chars inline_char s = true.
Proof.
  apply all_chars_weaken. intros c Hc. apply nonspace_inline.
  now destruct (is_hex_plain _ Hc).
Qed.

(** The report of a file that is readable or missing is one line of
    text. *)
Lemma report_inline (fs : filesystem) cwd cs rest dotslash read_size :
  forallb legal_name cs = true ->
  rest <> [] -> forallb plain_name rest = true ->
  dotslash = "./" \/ dotslash = "" ->
  granted fs read_size ->
  fs (render (cs ++ rest)) <> Some Unreadable ->
  exists l,
    report fs cwd (render cs) read_size dotslash (render (cs ++ rest)) = Ok l
    /\ Str.all_chars inline_char l = true.
Proof.
  intros Hcs Hne Hrest Hdot Hsize Hfs.
  assert (Hall : forallb legal_name (cs ++ rest) = true)
    by (rewrite forallb_app, Hcs; now apply plain_all_legal).
  assert (Hpre : Str.all_chars inline_char dotslash = true)
    by (destruct Hdot as [-> | ->]; reflexivity).
  assert (Hrel : Str.all_chars inline_char (Str.join_with "/" rest) = true)
    by now apply token_inline, join_with_plain.
  unfold report.
  destruct (fs (render (cs ++ rest))) as [[content|]|] eqn:Efs;
    [| congruence |].
  - rewrite (task_granted _ _ _ _ _ Hsize Efs). cbn [bind].
    rewrite commonpath_render by assumption. cbn [bind].
    rewrite relpath_render by assumption. cbn [bind].
    eexists. split; [reflexivity |]. unfold format_line, py_str.
    rewrite !all_chars_app, Hpre, Hrel.
    now rewrite (hex_inline _ (hexdigest_hex content)).
  - unfold calculate_file_checksum. rewrite Efs. cbn [bind].
    rewrite commonpath_render by assumption. cbn [bind].
    rewrite relpath_render by assumption. cbn [bind].
    eexists. split; [reflexivity |]. unfold format_line, py_str.
    rewrite !all_chars_app, Hpre, Hrel. reflexivity.
Qed.

(** X14.  For a directory given by an absolute normalized path whose
    entries have names without whitespace, when the pool has a worker,
    the read size is positive and granted, and no file to be hashed
    makes [open] fail otherwise than with [FileNotFoundError], the
    generation branch of [main] runs to the end and the number of lines
    it counts in the manifest it wrote is the number of discovered
    files whose names end neither in [.md5] nor in [.md5sum], those not
    found included. *)
Theorem main_counts_hashed_files :
  forall (fs : filesystem) cwd root_comps read_size sched workers
         include_hidden nodotslash t,
    fair sched ->
    forallb legal_name root_comps = true ->
    plain_tree t = true ->
    (0 < workers)%Z ->
    granted fs read_size ->
    (forall p,
        In p (discovered (render root_comps) (negb include_hidden) t) ->
        is_checksum_name p = false ->
        fs p <> Some Unreadable) ->
    fst (main_generate fs cwd (render root_comps) read_size sched workers
           include_hidden nodotslash t)
    = Ok (List.length
            (filter (fun p => negb (is_checksum_name p))
                    (discovered (render root_comps) (negb include_hidden) t))).
Proof.
  intros fs cwd root_comps read_size sched workers include_hidden nodotslash t
         Hfair Hroot Ht Hw Hsize Hread.
  unfold main_generate.
  set (dotslash := if nodotslash then "" else "./").
  assert (Hdot : dotslash = "./" \/ dotslash = "")
    by (unfold dotslash; destruct nodotslash; auto).
  set (directory := render root_comps).
  set (skip_hidden := negb include_hidden) in *.
  assert (Hline : forall p,
             In p (discovered directory skip_hidden t) ->
             is_checksum_name p = false ->
             exists l,
               report fs cwd directory read_size dotslash p = Ok l
               /\ Str.all_chars inline_char l = true).
  { intros p Hp Hck.
    destruct (discovered_rendered _ _ _ _ Hroot Ht Hp) as (rest & Hne & Hrest & ->).
    apply report_inline; auto. }
  destruct (gen_batches_ok fs cwd directory read_size dotslash sched Hfair
              (batch_os_walk directory (workers * 20) skip_hidden t) 0 [])
    as (order & lines & Hperm & HF & Hgen).
  { intros p Hp Hck. rewrite concat_batch_os_walk in Hp.
    destruct (Hline p Hp Hck) as (l & Hl & _). eauto. }
  rewrite concat_batch_os_walk in Hperm. cbn [app] in Hgen.
  assert (Hg : calculate_checksums_multithread fs cwd directory read_size
                 dotslash sched workers skip_hidden t
               = GenState lines None).
  { unfold calculate_checksums_multithread, executor.
    destruct (workers <=? 0)%Z eqn:E; [apply Z.leb_le in E; lia |].
    exact Hgen. }
  rewrite Hg. cbn [gen_raised printed fst]. f_equal.
  assert (Hinline : Forall (fun l => Str.all_chars inline_char l = true) lines).
  { assert (Hin : forall p, In p order ->
               In p (discovered directory skip_hidden t)
               /\ is_checksum_name p = false).
    { intros p Hp. apply (Permutation_in _ Hperm) in Hp.
      apply filter_In in Hp as [Hp Hck]. split; [exact Hp |].
      now destruct (is_checksum_name p). }
    clear - HF Hin Hline.
    induction HF as [|p l order lines Hpl HF IH]; constructor.
    - destruct (Hin p (or_introl eq_refl)) as [Hp Hck].
      destruct (Hline p Hp Hck) as (l' & Hl' & Hi). congruence.
    - apply IH. intros; apply Hin; now right. }
  rewrite readlines_file_text, length_map by exact Hinline.
  rewrite <- (Forall2_length HF). now apply Permutation_length.
Qed.

Lemma main_counts_hashed_files_witness :
  fst (main_generate Example.fs "/" "/data" 4096 lifo 5 true false Example.t)
  = Ok 2.
Proof.
  refine (main_counts_hashed_files Example.fs "/" ["data"] 4096 lifo 5
            true false Example.t lifo_fair eq_refl eq_refl eq_refl
            granted_example _).
  intros p Hp _. vm_compute in Hp.
  destruct Hp as [<- | [<- | []]]; discriminate.
Defined.

(** X15.  The line written for a readable file, hashed with a positive
    and granted read size, holds the digest first, then two blanks,
    then the prefix and the path of the file relative to the root of
    the walk, its components joined by slashes. *)
Theorem manifest_line_format :
  forall (fs : filesystem) cwd root_comps rest dotslash read_size content,
    rest <> [] ->
    forallb legal_name (root_comps ++ rest) = true ->
    granted fs read_size ->
    fs (render (root_comps ++ rest)) = Some (Regular content) ->
    report fs cwd (render root_comps) read_size dotslash
           (render (root_comps ++ rest))
    = Ok (MD5.hexdigest content ++ "  " ++ dotslash
            ++ Str.join_with "/" rest)%string.
Proof.
  intros fs cwd root_comps rest dotslash read_size content Hne Hall Hrs Hfs.
  rewrite (report_line fs cwd root_comps rest dotslash read_size content)
    by assumption.
  reflexivity.
Qed.

Lemma manifest_line_format_witness :
  report Example.fs "/" "/data" 4096 "./" "/data/.hidden/file.txt"
  = Ok "0cc175b9c0f1b6a831c399e269772661  ./.hidden/file.txt".
Proof.
  exact (manifest_line_format Example.fs "/" ["data"] [".hidden"; "file.txt"]
           "./" 4096 (bytes_of "a") ltac:(discriminate) eq_refl
           granted_example eq_refl).
Defined.

Lemma endswith_own_suffix p : forall a, Str.endswith p (a ++ p)%string = true.
Proof.
  induction a as [|x a IH].
  - destruct p; cbn [append Str.endswith]; [reflexivity |].
    now rewrite String.eqb_refl.
  - cbn [append Str.endswith]. rewrite IH. apply orb_true_r.
Qed.

(** X16.  The manifest that [main] names by default is never hashed
    into itself: wherever the walk meets a file of that name, under
    whatever directory, the orchestrator takes it for a checksum file
    and submits no task for it. *)
Theorem default_manifest_is_skipped :
  forall cwd directory root,
    is_checksum_name (Path.join root (default_outfile_name cwd directory))
    = true
    /\ filter (fun f => negb (is_checksum_name f))
              [Path.join root (default_outfile_name cwd directory)] = [].
Proof.
  intros cwd directory root.
  assert (H : is_checksum_name
                (Path.join root (default_outfile_name cwd directory)) = true).
  { unfold is_checksum_name, default_outfile_name, Path.join.
    set (b := split_tail (Path.abspath cwd directory)).
    destruct (Str.startswith "/" (b ++ ".md5")).
    - now rewrite endswith_own_suffix.
    - destruct (String.eqb root "" || Str.endswith "/" root).
      + now rewrite <- string_app_assoc, endswith_own_suffix.
      + change (root ++ "/" ++ b ++ ".md5")%string
          with (root ++ String Str.sep (b ++ ".md5"))%string.
        replace (root ++ String Str.sep (b ++ ".md5"))%string
          with ((root ++ String Str.sep b) ++ ".md5")%string
          by (now rewrite string_app_assoc).
        now rewrite endswith_own_suffix. }
  split; [exact H |]. cbn [filter]. now rewrite H.
Qed.

(** ** Bounds and order of completion *)

Lemma batch_chunk_bound {A} (l : list A) (n : Z) chunks :
  (0 < n)%Z -> batch l n = Ok chunks ->
  Forall (fun c => List.length c <= Z.to_nat n) chunks.
Proof.
  intros Hpos Hb. rewrite batch_unfold in Hb by exact Hpos.
  inversion Hb. apply Forall_forall. intros c Hin.
  apply in_map_iff in Hin as [j [<- _]]. apply firstn_le_length.
Qed.

Lemma concat_firstn_step {A} (k : nat) (chunks : list (list A)) :
  Forall (fun c => List.length c <= k) chunks ->
  forall m,
    List.length (List.concat (firstn (S m) chunks))
    <= List.length (List.concat (firstn m chunks)) + k.
Proof.
  induction 1 as [|c chunks Hc _ IH]; intros m.
  - rewrite !firstn_nil. simpl. lia.
  - destruct m as [|m].
    + cbn [firstn List.concat]. rewrite app_nil_r. simpl. lia.
    + specialize (IH m). cbn [firstn List.concat] in *.
      rewrite !length_app. lia.
Qed.

(** X17.  In a verify run the tasks handed to the pool and not yet
    consumed never pile up beyond one chunk: when the call ends, by
    return or by exception, the paths submitted exceed the results
    recorded by at most [max_workers * 4], and by nothing when the call
    returns. *)
Theorem outstanding_tasks_bounded :
  forall fs cwd directory read_size keep_going sched max_workers checksums
         st oe,
    fair sched ->
    verify_run fs cwd directory read_size keep_going sched max_workers
               checksums = (st, oe) ->
    List.length (submitted st)
    <= List.length (results st) + Z.to_nat (max_workers * 4)
    /\ (oe = None -> List.length (submitted st) = List.length (results st)).
Proof.
  intros fs cwd directory read_size keep_going sched max_workers checksums
         st oe Hfair Hrun.
  destruct (verify_run_cases _ _ _ _ _ _ _ _ _ _ Hfair Hrun)
    as [(_ & -> & ->) | (Hpos & chunks & Hb & Hcat & Hchunks)].
  { split; [simpl; lia | discriminate]. }
  apply (verify_chunks_cases _ _ _ _ _ _ Hfair) in Hchunks.
  destruct Hchunks
    as (n & done & rest & rs & _ & Hperm & HF & Hres & _ & Hsub & Hend & _ & Hsome).
  cbn [results submitted app] in Hres, Hsub.
  rewrite Hres, Hsub, !length_map.
  apply Permutation_length in Hperm. rewrite length_map, length_app in Hperm.
  pose proof (Forall2_length HF) as Hlen.
  assert (Hnone : oe = None ->
            List.length (List.concat (firstn n chunks)) = List.length rs).
  { intros ->.
    destruct Hend as [(_ & -> & _) | [(f & e & rest' & _ & _ & Hc & _) | (_ & earlier & r & _ & _ & _ & Hc)]];
      [simpl in Hperm; lia | discriminate | discriminate]. }
  split; [| exact Hnone].
  destruct oe as [e|]; [| rewrite (Hnone eq_refl); lia].
  destruct (Hsome e eq_refl) as (m & -> & Hm & _).
  pose proof (batch_chunk_bound checksums (max_workers * 4) chunks
                ltac:(lia) Hb) as Hbound.
  pose proof (concat_firstn_step _ chunks Hbound m). lia.
Qed.

Lemma outstanding_tasks_bounded_witness :
  let run := verify_run Example.fs "/" Example.root 4096 false fifo 1
               [ ("00000000000000000000000000000000", "./visible.txt");
                 ("0cc175b9c0f1b6a831c399e269772661", "./.hidden/file.txt");
                 ("d41d8cd98f00b204e9800998ecf8427e", "./a");
                 ("d41d8cd98f00b204e9800998ecf8427e", "./b");
                 ("d41d8cd98f00b204e9800998ecf8427e", "./c") ] in
  List.length (submitted (fst run)) <= List.length (results (fst run)) + 4.
Proof.
  intros run. destruct run as [st oe] eqn:E.
  exact (proj1 (outstanding_tasks_bounded _ _ _ _ _ _ _ _ _ _ fifo_fair E)).
Defined.

Lemma Forall2_functional_map {A B} (R : A -> B -> Prop) (g : A -> B) :
  (forall a b, R a b -> b = g a) ->
  forall l l', Forall2 R l l' -> l' = map g l.
Proof.
  intros Hg. induction 1 as [|a b l l' Hab _ IH]; [reflexivity |].
  cbn [map]. now rewrite (Hg a b Hab), IH.
Qed.

(** X18.  The ledger does not depend on the order of completion, on the
    number of workers or on the policy, except for the order of its
    triples: two calls on the same manifest and the same files that both
    return hand back ledgers that are permutations of each other. *)
Theorem ledgers_agree_up_to_order :
  forall fs cwd directory read_size checksums
         keep_going1 sched1 workers1 ledger1
         keep_going2 sched2 workers2 ledger2,
    fair sched1 -> fair sched2 ->
    verify_checksums_multithread fs cwd directory read_size keep_going1
      sched1 workers1 checksums = Ok ledger1 ->
    verify_checksums_multithread fs cwd directory read_size keep_going2
      sched2 workers2 checksums = Ok ledger2 ->
    Permutation ledger1 ledger2.
Proof.
  intros fs cwd directory read_size checksums
         keep_going1 sched1 workers1 ledger1
         keep_going2 sched2 workers2 ledger2 Hf1 Hf2 H1 H2.
  set (g := fun f : future =>
              match calculate_file_checksum fs (fut_path f) read_size
                      (fut_expected f) with
              | Ok r => r
              | Raise _ => (fut_path f, None, fut_expected f)
              end).
  assert (Hg : forall f r, returns fs read_size f r -> r = g f).
  { intros f r Hr. unfold g. unfold returns in Hr. now rewrite Hr. }
  assert (Hshape : forall keep_going sched workers ledger,
             fair sched ->
             verify_checksums_multithread fs cwd directory read_size
               keep_going sched workers checksums = Ok ledger ->
             Permutation (map g (map (submit cwd directory) checksums)) ledger).
  { intros keep_going sched workers ledger Hf H.
    unfold verify_checksums_multithread in H.
    destruct (verify_run fs cwd directory read_size keep_going sched workers
                checksums) as [st [e|]] eqn:Hrun; [discriminate |].
    inversion H; subst ledger.
    destruct (verify_returned _ _ _ _ _ _ _ _ _ Hf Hrun)
      as (done & Hperm & HF & _).
    rewrite (Forall2_functional_map _ g Hg _ _ HF).
    now apply Permutation_map. }
  apply Permutation_trans
    with (map g (map (submit cwd directory) checksums)).
  - apply Permutation_sym.
    exact (Hshape keep_going1 sched1 workers1 ledger1 Hf1 H1).
  - exact (Hshape keep_going2 sched2 workers2 ledger2 Hf2 H2).
Qed.

Lemma ledgers_agree_up_to_order_witness :
  Permutation
    [ ("/data/visible.txt", Some "900150983cd24fb0d6963f7d28e17f72",
       Some "900150983cd24fb0d6963f7d28e17f72");
      ("/data/.hidden/file.txt", Some "0cc175b9c0f1b6a831c399e269772661",
       Some "00000000000000000000000000000000") ]
    [ ("/data/.hidden/file.txt", Some "0cc175b9c0f1b6a831c399e269772661",
       Some "00000000000000000000000000000000");
      ("/data/visible.txt", Some "900150983cd24fb0d6963f7d28e17f72",
       Some "900150983cd24fb0d6963f7d28e17f72") ].
Proof.
  refine (ledgers_agree_up_to_order Example.fs "/" Example.root 4096
            [ ("900150983cd24fb0d6963f7d28e17f72", "./visible.txt");
              ("00000000000000000000000000000000", "./.hidden/file.txt") ]
            true fifo 5 _ true lifo 2 _ fifo_fair lifo_fair _ _);
    vm_compute; reflexivity.
Defined.

(** X19.  The manifest does not depend on the order of completion or on
    the number of workers, except for the order of its lines: two
    generation runs over the same directory and the same files that both
    complete write the same lines, each as many times. *)
Theorem manifests_agree_up_to_order :
  forall fs cwd directory read_size dotslash skip_hidden t
         sched1 workers1 sched2 workers2,
    fair sched1 -> fair sched2 ->
    let g1 := calculate_checksums_multithread fs cwd directory read_size
                dotslash sched1 workers1 skip_hidden t in
    let g2 := calculate_checksums_multithread fs cwd directory read_size
                dotslash sched2 workers2 skip_hidden t in
    gen_raised g1 = None -> gen_raised g2 = None ->
    Permutation (printed g1) (printed g2).
Proof.
  intros fs cwd directory read_size dotslash skip_hidden t
         sched1 workers1 sched2 workers2 Hf1 Hf2 g1 g2 Hn1 Hn2.
  set (line := fun p =>
                 match report fs cwd directory read_size dotslash p with
                 | Ok l => l
                 | Raise _ => ""
                 end).
  assert (Hline : forall p l,
             report fs cwd directory read_size dotslash p = Ok l -> l = line p).
  { intros p l H. unfold line. now rewrite H. }
  assert (Hshape : forall sched workers,
             fair sched ->
             gen_raised (calculate_checksums_multithread fs cwd directory
                           read_size dotslash sched workers skip_hidden t)
             = None ->
             Permutation
               (map line (filter (fun p => negb (is_checksum_name p))
                                 (discovered directory skip_hidden t)))
               (printed (calculate_checksums_multithread fs cwd directory
                           read_size dotslash sched workers skip_hidden t))).
  { intros sched workers Hf. unfold calculate_checksums_multithread.
    destruct (executor workers) as [[]|e]; [| discriminate].
    intros Hn.
    destruct (gen_batches_cases fs cwd directory read_size dotslash sched Hf
                (batch_os_walk directory (workers * 20) skip_hidden t) 0 [])
      as (order & rest & lines & HF & Hp & Hperm & Hnone & _).
    rewrite concat_batch_os_walk, (Hnone Hn), app_nil_r in Hperm.
    rewrite Hp. cbn [app].
    rewrite (Forall2_functional_map _ line Hline _ _ HF).
    now apply Permutation_map. }
  apply Permutation_trans
    with (map line (filter (fun p => negb (is_checksum_name p))
                           (discovered directory skip_hidden t))).
  - apply Permutation_sym. exact (Hshape sched1 workers1 Hf1 Hn1).
  - exact (Hshape sched2 workers2 Hf2 Hn2).
Qed.

Lemma manifests_agree_up_to_order_witness :
  Permutation
    (printed (calculate_checksums_multithread Example.fs "/" Example.root
                4096 "./" fifo 5 false Example.t))
    (printed (calculate_checksums_multithread Example.fs "/" Example.root
                4096 "./" lifo 1 false Example.t)).
Proof.
  apply (manifests_agree_up_to_order Example.fs "/" Example.root 4096 "./"
           false Example.t fifo 5 lifo 1 fifo_fair lifo_fair);
    vm_compute; reflexivity.
Defined.
